(** * BoreMap: the local persistence layer and the project state hook

    A shallow embedding of [src/data/storage.ts] (the Store: CRUD over the
    project collection kept as one JSON blob in [localStorage]) and of
    [src/hooks/useProjects.tsx] (the Facade: the React state that wraps the
    Store), with the properties the specification states about them.

    Conventions of the embedding
    - a JS [number] that the Store only copies (coordinates, levels) is a
      binary64 [float]; the loop counter of [generateBoreholeCode] is a [nat]
      (it only counts up from 1 by 1);
    - a timestamp is the [string] that [new Date().toISOString()] returned;
    - an optional property is an [option] ([None]: the key is missing or holds
      [undefined]); [number | null | undefined] is [Nullable];
    - what is written to [localStorage] is read back as JSON gives it: a
      number that is not finite comes back as [null] and [-0] as [0]
      ([roundTripProject]); strings, enumerations and missing keys come back
      as they were written;
    - [localStorage], the clock, [uuidv4] and the console are the [World] that
      every Store operation threads; an exception is the outcome [Thrown].
      A [World] holds, under the Store's key, nothing, a text that does not
      parse, or the serialization of an array of projects: the states the
      Store itself produces, and the ones its operations are stated on. Text
      that parses to any other value is a [StoredText]; [getProjectsOn] is
      [getProjects] over those as well. *)

From Stdlib Require Import String Ascii List Arith Bool Lia.
From Stdlib Require Import DecimalString DecimalNat.
From Stdlib Require Import Floats.PrimFloat.
Import ListNotations.

Set Warnings "-inexact-float,-register-all".
Local Open Scope list_scope.
Local Open Scope string_scope.

(** ** Domain types ([src/data/types.ts]) *)

Inductive CoordinateSystem := WGS84.

Inductive BoreholeStatus := Planned | Drilling | Completed | Abandoned.

Inductive ProjectStatus := Active | Archived.

(** [number | null | undefined] *)
Inductive Nullable :=
| Undefined
| Null
| Num (value : float).

(** [latitude] and [longitude] are [number] in the type; a record read from
    the storage holds [null] where a number that is not finite was written. *)
Module Borehole.
Record t := mk {
  id : string;
  code : string;
  name : option string;
  latitude : Nullable;
  longitude : Nullable;
  groundLevel : Nullable;
  totalDepth : Nullable;
  status : BoreholeStatus;
  notes : option string;
  createdAt : string;
  updatedAt : string;
}.
End Borehole.

Module Project.
Record t := mk {
  id : string;
  name : string;
  client : option string;
  locationDescription : option string;
  coordinateSystem : CoordinateSystem;
  boreholes : list Borehole.t;
  createdAt : string;
  updatedAt : string;
  status : ProjectStatus;
}.
End Project.

(** ** Records through JSON

    [JSON.parse(JSON.stringify(x))]: what is read where [x] was written. *)

(** [JSON.stringify] writes [NaN], [Infinity] and [-Infinity] as [null], and
    [-0] as [0]; every other number is written with the digits that read
    back to it. *)
Definition roundTripNumber (n : float) : Nullable :=
  if is_nan n || is_infinity n then Null
  else if is_zero n then Num 0
  else Num n.

(** A key that holds [undefined] is left out, and is missing when read. *)
Definition roundTripNullable (v : Nullable) : Nullable :=
  match v with
  | Num n => roundTripNumber n
  | Null => Null
  | Undefined => Undefined
  end.

Definition roundTripBorehole (b : Borehole.t) : Borehole.t :=
  Borehole.mk (Borehole.id b) (Borehole.code b) (Borehole.name b)
    (roundTripNullable (Borehole.latitude b))
    (roundTripNullable (Borehole.longitude b))
    (roundTripNullable (Borehole.groundLevel b))
    (roundTripNullable (Borehole.totalDepth b))
    (Borehole.status b) (Borehole.notes b)
    (Borehole.createdAt b) (Borehole.updatedAt b).

Definition roundTripProject (p : Project.t) : Project.t :=
  Project.mk (Project.id p) (Project.name p) (Project.client p)
    (Project.locationDescription p) (Project.coordinateSystem p)
    (map roundTripBorehole (Project.boreholes p))
    (Project.createdAt p) (Project.updatedAt p) (Project.status p).

(** ** The JavaScript operators the Store uses *)

(** [String(num)] for a non-negative integer: its decimal digits. *)
Definition String_of (num : nat) : string :=
  NilEmpty.string_of_uint (Nat.to_uint num).

(** [str.padStart(targetLength, c)] for a one-character pad string. *)
Definition padStart (targetLength : nat) (c : ascii) (str : string) : string :=
  string_of_list_ascii (repeat c (targetLength - String.length str)) ++ str.

(** [array.includes(x)] on an array of strings. *)
Definition includes (array : list string) (x : string) : bool :=
  existsb (String.eqb x) array.

(** [array.find(pred)] together with the position of what it found, which is
    [array.findIndex(pred)]: the result of [find] is the array's own element,
    so an assignment to one of its fields is an assignment at that position
    of the array. [None] stands for [undefined] and for the index [-1]. *)
Fixpoint find_ref {A : Type} (pred : A -> bool) (array : list A) : option (nat * A) :=
  match array with
  | [] => None
  | x :: rest =>
      if pred x then Some (0, x)
      else match find_ref pred rest with
           | Some (i, y) => Some (S i, y)
           | None => None
           end
  end.

(** [array[index] = value] for an index inside the array. *)
Fixpoint assign {A : Type} (index : nat) (value : A) (array : list A) : list A :=
  match array, index with
  | [], _ => []
  | _ :: rest, 0 => value :: rest
  | x :: rest, S i => x :: assign i value rest
  end.

(** [a || b] on an optional string: the empty string is falsy too. *)
Definition or_string (a : option string) (b : string) : string :=
  match a with
  | Some s => if String.eqb s "" then b else s
  | None => b
  end.

(** [a || b] on an optional value of a type without falsy members. *)
Definition or_else {A : Type} (a : option A) (b : A) : A :=
  match a with
  | Some x => x
  | None => b
  end.

(** [a ?? null] *)
Definition or_null (a : Nullable) : Nullable :=
  match a with
  | Num v => Num v
  | Null | Undefined => Null
  end.

(** ** Borehole codes *)

(** [`BH${String(num).padStart(2, '0')}`] *)
Definition bhCode (num : nat) : string :=
  "BH" ++ padStart 2 "0"%char (String_of num).

(** Reading a code back: the number after the two letters. *)
Definition codeNumber (code : string) : option nat :=
  match code with
  | String _ (String _ digits) =>
      option_map Nat.of_uint (NilEmpty.uint_of_string digits)
  | _ => None
  end.

(** [while (existingCodes.includes(code num)) num++], cut after [fuel] tests
    of the condition; [scan_exits] shows that the fuel
    [generateBoreholeCode] gives is never used up. *)
Fixpoint scan (fuel : nat) (existingCodes : list string) (num : nat) : nat :=
  match fuel with
  | 0 => num
  | S fuel' =>
      if includes existingCodes (bhCode num)
      then scan fuel' existingCodes (S num)
      else num
  end.

(** The same loop as a relation, without fuel: [while_loop codes num tests
    result] says that the loop entered with counter [num] leaves with counter
    [result] after evaluating its condition [tests] times. *)
Inductive while_loop (existingCodes : list string) : nat -> nat -> nat -> Prop :=
| loop_exit num :
    includes existingCodes (bhCode num) = false ->
    while_loop existingCodes num 1 num
| loop_next num tests result :
    includes existingCodes (bhCode num) = true ->
    while_loop existingCodes (S num) tests result ->
    while_loop existingCodes num (S tests) result.

Definition generateBoreholeCode (project : Project.t) : string :=
  let existingCodes := map Borehole.code (Project.boreholes project) in
  let num := scan (S (length existingCodes)) existingCodes 1 in
  bhCode num.

(** ** The world the Store runs in *)

(** A string held by [localStorage] in a [World]. [Json projects] is the
    text [JSON.stringify(projects)], which is what the Store writes:
    [JSON.parse] reads it as the array of [roundTripProject] of each
    project. [Text data] is a text [data] that [JSON.parse] rejects, the
    empty string among them. Any other text that parses (to a value that is
    not an array of projects, or to an array that [JSON.stringify] does not
    write as that text) is a [Foreign] text of [StoredText] below. *)
Inductive Blob :=
| Json (projects : list Project.t)
| Text (data : string).

(** Whether [localStorage] can be used: [Full] makes [setItem] throw (the
    quota is exceeded), [Denied] makes [getItem] and [setItem] throw. *)
Inductive Access := Available | Full | Denied.

(** [localStorage], seen through the one key the Store uses. *)
Record LocalStorage := mkLocalStorage {
  item : option Blob;   (* what [getItem(STORAGE_KEY)] returns; [None]: [null] *)
  access : Access;
}.

Record World := mkWorld {
  localStorage : LocalStorage;
  clock : nat -> string;     (* the readings [new Date().toISOString()] will give *)
  uuids : nat -> string;     (* the identifiers [uuidv4()] will give *)
  console : list string;     (* what [console.error] printed, newest first *)
}.

Inductive Outcome (A : Type) :=
| Returned (value : A)
| Thrown (error : string).
Arguments Returned {A} value.
Arguments Thrown {A} error.

(** A computation: it reads and changes the world, and returns or throws. *)
Definition M (A : Type) : Type := World -> Outcome A * World.

Definition ret {A : Type} (value : A) : M A :=
  fun w => (Returned value, w).

Definition throw {A : Type} (error : string) : M A :=
  fun w => (Thrown error, w).

Definition bind {A B : Type} (c : M A) (k : A -> M B) : M B :=
  fun w =>
    match c w with
    | (Returned value, w') => k value w'
    | (Thrown error, w') => (Thrown error, w')
    end.

(** [try { body } catch (error) { handler }] *)
Definition try_catch {A : Type} (body : M A) (handler : string -> M A) : M A :=
  fun w =>
    match body w with
    | (Returned value, w') => (Returned value, w')
    | (Thrown error, w') => handler error w'
    end.

Notation "x <- c ;; k" := (bind c (fun x => k))
  (at level 61, c at next level, right associativity).
Notation "c ;;; k" := (bind c (fun _ => k))
  (at level 61, right associativity).

Definition localStorage_getItem : M (option Blob) :=
  fun w =>
    match access (localStorage w) with
    | Available | Full => (Returned (item (localStorage w)), w)
    | Denied => (Thrown "SecurityError", w)
    end.

Definition localStorage_setItem (value : Blob) : M unit :=
  fun w =>
    match access (localStorage w) with
    | Available =>
        (Returned tt,
         mkWorld (mkLocalStorage (Some value) Available)
                 (clock w) (uuids w) (console w))
    | Full => (Thrown "QuotaExceededError", w)
    | Denied => (Thrown "SecurityError", w)
    end.

(** [JSON.stringify(projects)] *)
Definition JSON_stringify (projects : list Project.t) : Blob :=
  Json projects.

(** [JSON.parse(data)] on a text of a [World]: the array written, with its
    numbers as JSON gives them back, or a [SyntaxError]. *)
Definition JSON_parse (data : Blob) : M (list Project.t) :=
  match data with
  | Json projects => ret (map roundTripProject projects)
  | Text _ => throw "SyntaxError"
  end.

(** [!data] for a string: only the empty string is falsy. *)
Definition is_empty (data : Blob) : bool :=
  match data with
  | Text s => String.eqb s ""
  | Json _ => false
  end.

(** [new Date().toISOString()] *)
Definition Date_now : M string :=
  fun w =>
    (Returned (clock w 0),
     mkWorld (localStorage w) (fun n => clock w (S n)) (uuids w) (console w)).

Definition uuidv4 : M string :=
  fun w =>
    (Returned (uuids w 0),
     mkWorld (localStorage w) (clock w) (fun n => uuids w (S n)) (console w)).

Definition console_error (message : string) : M unit :=
  fun w =>
    (Returned tt,
     mkWorld (localStorage w) (clock w) (uuids w) (message :: console w)).

(** ** Partial updates *)

(** [Partial<Project>], as the Facade hands it to the Store: a key is missing
    ([None]) or holds a value of the field's type. The Store's own parameter
    type leaves out [id], [createdAt] and [boreholes]; the object spread that
    merges the argument copies whatever keys it carries. *)
Module ProjectUpdates.
Record t := mk {
  id : option string;
  name : option string;
  client : option (option string);
  locationDescription : option (option string);
  coordinateSystem : option CoordinateSystem;
  boreholes : option (list Borehole.t);
  createdAt : option string;
  updatedAt : option string;
  status : option ProjectStatus;
}.
Definition empty : t := mk None None None None None None None None None.
(** The keys the Store's parameter type [Omit]s are missing. *)
Definition typed (u : t) : Prop :=
  id u = None /\ createdAt u = None /\ boreholes u = None.
End ProjectUpdates.

(** [Partial<Borehole>]: a key is missing or holds a value of the field. *)
Module BoreholeUpdates.
Record t := mk {
  id : option string;
  code : option string;
  name : option (option string);
  latitude : option Nullable;
  longitude : option Nullable;
  groundLevel : option Nullable;
  totalDepth : option Nullable;
  status : option BoreholeStatus;
  notes : option (option string);
  createdAt : option string;
  updatedAt : option string;
}.
Definition empty : t :=
  mk None None None None None None None None None None None.
(** [{ status: s }] *)
Definition onlyStatus (s : BoreholeStatus) : t :=
  mk None None None None None None None (Some s) None None None.
End BoreholeUpdates.

(** The arguments of [createProject] and [addBorehole]. *)
Module ProjectData.
Record t := mk {
  name : string;
  client : option string;
  locationDescription : option string;
  coordinateSystem : option CoordinateSystem;
}.
End ProjectData.

Module BoreholeData.
Record t := mk {
  code : option string;
  name : option string;
  latitude : float;
  longitude : float;
  groundLevel : Nullable;
  totalDepth : Nullable;
  status : option BoreholeStatus;
  notes : option string;
}.
(** The same argument with another [code]. *)
Definition withCode (c : option string) (data : t) : t :=
mk c (name data) (latitude data) (longitude data) (groundLevel data)
  (totalDepth data) (status data) (notes data).
End BoreholeData.

(** ** The Store ([src/data/storage.ts]) *)

Module storage.

(** [{ ...project, ...updates, updatedAt: now }] *)
Definition mergeProject (project : Project.t) (updates : ProjectUpdates.t)
    (now : string) : Project.t :=
  Project.mk
    (or_else (ProjectUpdates.id updates) (Project.id project))
    (or_else (ProjectUpdates.name updates) (Project.name project))
    (or_else (ProjectUpdates.client updates) (Project.client project))
    (or_else (ProjectUpdates.locationDescription updates)
             (Project.locationDescription project))
    (or_else (ProjectUpdates.coordinateSystem updates)
             (Project.coordinateSystem project))
    (or_else (ProjectUpdates.boreholes updates) (Project.boreholes project))
    (or_else (ProjectUpdates.createdAt updates) (Project.createdAt project))
    now
    (or_else (ProjectUpdates.status updates) (Project.status project)).

(** [{ ...borehole, ...updates, updatedAt: now }] *)
Definition mergeBorehole (borehole : Borehole.t) (updates : BoreholeUpdates.t)
    (now : string) : Borehole.t :=
  Borehole.mk
    (or_else (BoreholeUpdates.id updates) (Borehole.id borehole))
    (or_else (BoreholeUpdates.code updates) (Borehole.code borehole))
    (or_else (BoreholeUpdates.name updates) (Borehole.name borehole))
    (or_else (BoreholeUpdates.latitude updates) (Borehole.latitude borehole))
    (or_else (BoreholeUpdates.longitude updates) (Borehole.longitude borehole))
    (or_else (BoreholeUpdates.groundLevel updates) (Borehole.groundLevel borehole))
    (or_else (BoreholeUpdates.totalDepth updates) (Borehole.totalDepth borehole))
    (or_else (BoreholeUpdates.status updates) (Borehole.status borehole))
    (or_else (BoreholeUpdates.notes updates) (Borehole.notes borehole))
    (or_else (BoreholeUpdates.createdAt updates) (Borehole.createdAt borehole))
    now.

(** [project.boreholes = boreholes; project.updatedAt = now] *)
Definition touch (project : Project.t) (boreholes : list Borehole.t)
    (now : string) : Project.t :=
  Project.mk (Project.id project) (Project.name project)
    (Project.client project) (Project.locationDescription project)
    (Project.coordinateSystem project) boreholes
    (Project.createdAt project) now (Project.status project).

Definition hasId (projectId : string) (p : Project.t) : bool :=
  String.eqb (Project.id p) projectId.

Definition boreholeHasId (boreholeId : string) (b : Borehole.t) : bool :=
  String.eqb (Borehole.id b) boreholeId.

Definition getProjects : M (list Project.t) :=
  try_catch
    (data <- localStorage_getItem ;;
     match data with
     | None => ret []
     | Some text => if is_empty text then ret [] else JSON_parse text
     end)
    (fun error => console_error "Failed to load projects:" ;;; ret []).

Definition getProject (projectId : string) : M (option Project.t) :=
  projects <- getProjects ;;
  ret (find (hasId projectId) projects).

Definition saveProjects (projects : list Project.t) : M unit :=
  try_catch
    (localStorage_setItem (JSON_stringify projects))
    (fun error =>
       console_error "Failed to save projects:" ;;;
       throw "Failed to save data").

Definition createProject (data : ProjectData.t) : M Project.t :=
  now <- Date_now ;;
  id <- uuidv4 ;;
  let project :=
    Project.mk id (ProjectData.name data)
      (Some (or_string (ProjectData.client data) ""))
      (Some (or_string (ProjectData.locationDescription data) ""))
      (or_else (ProjectData.coordinateSystem data) WGS84)
      [] now now Active in
  projects <- getProjects ;;
  saveProjects (project :: projects) ;;;
  ret project.

Definition updateProject (projectId : string) (updates : ProjectUpdates.t)
    : M (option Project.t) :=
  projects <- getProjects ;;
  match find_ref (hasId projectId) projects with
  | None => ret None
  | Some (index, found) =>
      now <- Date_now ;;
      let merged := mergeProject found updates now in
      saveProjects (assign index merged projects) ;;;
      ret (Some merged)
  end.

Definition deleteProject (projectId : string) : M bool :=
  projects <- getProjects ;;
  let filtered := filter (fun p => negb (hasId projectId p)) projects in
  if Nat.eqb (length filtered) (length projects) then ret false
  else saveProjects filtered ;;; ret true.

Definition addBorehole (projectId : string) (data : BoreholeData.t)
    : M (option Borehole.t) :=
  projects <- getProjects ;;
  match find_ref (hasId projectId) projects with
  | None => ret None
  | Some (index, project) =>
      now <- Date_now ;;
      id <- uuidv4 ;;
      let borehole :=
        Borehole.mk id
          (or_string (BoreholeData.code data) (generateBoreholeCode project))
          (BoreholeData.name data)
          (Num (BoreholeData.latitude data))
          (Num (BoreholeData.longitude data))
          (or_null (BoreholeData.groundLevel data))
          (or_null (BoreholeData.totalDepth data))
          (or_else (BoreholeData.status data) Planned)
          (Some (or_string (BoreholeData.notes data) ""))
          now now in
      let project' :=
        touch project (Project.boreholes project ++ [borehole]) now in
      saveProjects (assign index project' projects) ;;;
      ret (Some borehole)
  end.

Definition updateBorehole (projectId boreholeId : string)
    (updates : BoreholeUpdates.t) : M (option Borehole.t) :=
  projects <- getProjects ;;
  match find_ref (hasId projectId) projects with
  | None => ret None
  | Some (index, project) =>
      match find_ref (boreholeHasId boreholeId) (Project.boreholes project) with
      | None => ret None
      | Some (boreholeIndex, found) =>
          now <- Date_now ;;
          let merged := mergeBorehole found updates now in
          now' <- Date_now ;;
          let project' :=
            touch project
              (assign boreholeIndex merged (Project.boreholes project)) now' in
          saveProjects (assign index project' projects) ;;;
          ret (Some merged)
      end
  end.

Definition deleteBorehole (projectId boreholeId : string) : M bool :=
  projects <- getProjects ;;
  match find_ref (hasId projectId) projects with
  | None => ret false
  | Some (index, project) =>
      let initialLength := length (Project.boreholes project) in
      let remaining :=
        filter (fun b => negb (boreholeHasId boreholeId b))
               (Project.boreholes project) in
      if Nat.eqb (length remaining) initialLength then ret false
      else
        now <- Date_now ;;
        saveProjects (assign index (touch project remaining now) projects) ;;;
        ret true
  end.

(** [initializeSampleData], by the array its literal builds: the entries of
  [sampleProjects] are drawn from [uuidv4], the clock and [Math.random]
  after the guard has passed, so the array is an argument here. *)
Definition initializeSampleData (sampleProjects : list Project.t) : M unit :=
  projects <- getProjects ;;
  if Nat.ltb 0 (length projects) then ret tt
  else saveProjects sampleProjects.

(** The records the object literals of [createProject] and [addBorehole]
  build, by the identifier and the clock reading they are given. *)
Definition newProject (id now : string) (data : ProjectData.t) : Project.t :=
  Project.mk id (ProjectData.name data)
    (Some (or_string (ProjectData.client data) ""))
    (Some (or_string (ProjectData.locationDescription data) ""))
    (or_else (ProjectData.coordinateSystem data) WGS84)
    [] now now Active.

Definition newBorehole (id now : string) (project : Project.t)
    (data : BoreholeData.t) : Borehole.t :=
  Borehole.mk id
    (or_string (BoreholeData.code data) (generateBoreholeCode project))
    (BoreholeData.name data)
    (Num (BoreholeData.latitude data))
    (Num (BoreholeData.longitude data))
    (or_null (BoreholeData.groundLevel data))
    (or_null (BoreholeData.totalDepth data))
    (or_else (BoreholeData.status data) Planned)
    (Some (or_string (BoreholeData.notes data) ""))
    now now.

(** [b => b.id !== boreholeId] *)
Definition otherId (boreholeId : string) (b : Borehole.t) : bool :=
  negb (boreholeHasId boreholeId b).

End storage.

(** What [listProjects()] (the Store's [getProjects]) returns in a world. *)
Definition stored (w : World) : list Project.t :=
  match fst (storage.getProjects w) with
  | Returned projects => projects
  | Thrown _ => []
  end.

(** ** [getProjects] on any text

    The Store does not check what it parses: [JSON.parse(data) as Project[]]
    is returned whatever it is. Here the storage may hold any text. *)

(** A JSON value, as [JSON.parse] returns it. *)
Inductive JsonValue :=
| JNull
| JBool (b : bool)
| JNumber (n : float)
| JString (s : string)
| JArray (elements : list JsonValue)
| JObject (properties : list (string * JsonValue)).

(** A text under the Store's key: a text of a [World], or any other text
    that parses, by the [value] that [JSON.parse] reads it as: [null], a
    number, an object, an array of something else than projects. *)
Inductive StoredText :=
| OfStore (text : Blob)
| Foreign (value : JsonValue).

Record Medium := mkMedium {
  held : option StoredText;   (* what [getItem(STORAGE_KEY)] returns *)
  readable : Access;
}.

(** What [getProjects] hands to its caller under the type [Project[]]. *)
Inductive Loaded :=
| Projects (projects : list Project.t)
| NotProjects (value : JsonValue).

Definition getItemOn (m : Medium) : Outcome (option StoredText) :=
  match readable m with
  | Available | Full => Returned (held m)
  | Denied => Thrown "SecurityError"
  end.

(** [!data] *)
Definition emptyText (data : StoredText) : bool :=
  match data with
  | OfStore text => is_empty text
  | Foreign _ => false
  end.

(** [JSON.parse(data) as Project[]] *)
Definition parseText (data : StoredText) : Outcome Loaded :=
  match data with
  | OfStore (Json projects) => Returned (Projects (map roundTripProject projects))
  | OfStore (Text _) => Thrown "SyntaxError"
  | Foreign value => Returned (NotProjects value)
  end.

(** [getProjects] with the console it prints on: the result, and the
    console afterwards. *)
Definition getProjectsOn (m : Medium) (out : list string)
    : Outcome Loaded * list string :=
  let body :=
    match getItemOn m with
    | Returned None => Returned (Projects [])
    | Returned (Some data) =>
        if emptyText data then Returned (Projects []) else parseText data
    | Thrown error => Thrown error
    end in
  match body with
  | Returned value => (Returned value, out)
  | Thrown error => (Returned (Projects []), "Failed to load projects:" :: out)
  end.

(** The storage of a [World], as a [Medium]. *)
Definition mediumOf (w : World) : Medium :=
  mkMedium (option_map OfStore (item (localStorage w)))
           (access (localStorage w)).

(** ** The Facade ([src/hooks/useProjects.tsx]) *)

Module useProjects.

(** The React state of [ProjectProvider]. An operation below is one call of
    the callback made from the current render: the [currentProject] and
    [selectedBorehole] it closes over are those of the state it starts
    from, and the state it ends in is the one after all its setters. *)
Record State := mkState {
  projects : list Project.t;
  currentProject : option Project.t;
  selectedBorehole : option Borehole.t;
  isLoading : bool;
  error : option string;
}.

Definition setProjects (data : list Project.t) (s : State) : State :=
  mkState data (currentProject s) (selectedBorehole s) (isLoading s) (error s).

Definition setCurrentProject (p : option Project.t) (s : State) : State :=
  mkState (projects s) p (selectedBorehole s) (isLoading s) (error s).

Definition setSelectedBorehole (b : option Borehole.t) (s : State) : State :=
  mkState (projects s) (currentProject s) b (isLoading s) (error s).

Definition setIsLoading (l : bool) (s : State) : State :=
  mkState (projects s) (currentProject s) (selectedBorehole s) l (error s).

Definition setError (e : option string) (s : State) : State :=
  mkState (projects s) (currentProject s) (selectedBorehole s) (isLoading s) e.

(** [catch (err) { setError(message); console.error(err); }] *)
Definition failed (message err : string) (s : State) (w : World)
    : State * World :=
  (setError (Some message) s, snd (console_error err w)).

(** [currentProject?.id === projectId] *)
Definition isCurrent (s : State) (projectId : string) : bool :=
  match currentProject s with
  | Some p => String.eqb (Project.id p) projectId
  | None => false
  end.

(** [selectedBorehole?.id === boreholeId] *)
Definition isSelected (s : State) (boreholeId : string) : bool :=
  match selectedBorehole s with
  | Some b => String.eqb (Borehole.id b) boreholeId
  | None => false
  end.

Definition loadProjects (s : State) (w : World) : State * World :=
  let s := setIsLoading true s in
  let (s, w) :=
    match storage.getProjects w with
    | (Returned data, w') => (setError None (setProjects data s), w')
    | (Thrown err, w') => failed "Failed to load projects" err s w'
    end in
  (setIsLoading false s, w).

Definition loadProject (projectId : string) (s : State) (w : World)
    : State * World :=
  let s := setIsLoading true s in
  let (s, w) :=
    match storage.getProject projectId w with
    | (Returned project, w') =>
        (setError None (setSelectedBorehole None (setCurrentProject project s)), w')
    | (Thrown err, w') => failed "Failed to load project" err s w'
    end in
  (setIsLoading false s, w).

Definition deleteProject (projectId : string) (s : State) (w : World)
    : State * World :=
  match storage.deleteProject projectId w with
  | (Returned _, w') =>
      let (s', w'') := loadProjects s w' in
      if isCurrent s projectId then (setCurrentProject None s', w'')
      else (s', w'')
  | (Thrown err, w') => failed "Failed to delete project" err s w'
  end.

Definition updateBorehole (boreholeId : string) (updates : BoreholeUpdates.t)
    (s : State) (w : World) : State * World :=
  match currentProject s with
  | None => (s, w)
  | Some current =>
      match storage.updateBorehole (Project.id current) boreholeId updates w with
      | (Returned updated, w') =>
          let (s', w'') := loadProject (Project.id current) s w' in
          match updated with
          | Some b =>
              if isSelected s boreholeId
              then (setSelectedBorehole (Some b) s', w'')
              else (s', w'')
          | None => (s', w'')
          end
      | (Thrown err, w') => failed "Failed to update borehole" err s w'
      end
  end.

Definition deleteBorehole (boreholeId : string) (s : State) (w : World)
    : State * World :=
  match currentProject s with
  | None => (s, w)
  | Some current =>
      match storage.deleteBorehole (Project.id current) boreholeId w with
      | (Returned _, w') =>
          let (s', w'') := loadProject (Project.id current) s w' in
          if isSelected s boreholeId
          then (setSelectedBorehole None s', w'')
          else (s', w'')
      | (Thrown err, w') => failed "Failed to delete borehole" err s w'
      end
  end.

Definition selectBorehole (borehole : option Borehole.t) (s : State) : State :=
  setSelectedBorehole borehole s.

(** The state [ProjectProvider] starts from. *)
Definition initial : State := mkState [] None None false None.

(** The callbacks that return a value: the value, then the state and the
  world. [None] is [null]. *)
Definition createProject (data : ProjectData.t) (s : State) (w : World)
    : option Project.t * (State * World) :=
  match storage.createProject data w with
  | (Returned project, w') => (Some project, loadProjects s w')
  | (Thrown err, w') => (None, failed "Failed to create project" err s w')
  end.

Definition updateProject (projectId : string) (updates : ProjectUpdates.t)
    (s : State) (w : World) : State * World :=
  match storage.updateProject projectId updates w with
  | (Returned _, w') =>
      let (s', w'') := loadProjects s w' in
      if isCurrent s projectId then loadProject projectId s' w''
      else (s', w'')
  | (Thrown err, w') => failed "Failed to update project" err s w'
  end.

Definition addBorehole (data : BoreholeData.t) (s : State) (w : World)
    : option Borehole.t * (State * World) :=
  match currentProject s with
  | None => (None, (s, w))
  | Some current =>
      match storage.addBorehole (Project.id current) data w with
      | (Returned borehole, w') =>
          (borehole, loadProject (Project.id current) s w')
      | (Thrown err, w') => (None, failed "Failed to add borehole" err s w')
      end
  end.

Definition clearError (s : State) : State := setError None s.

End useProjects.

(** ** What the pages compute from the Store's records

    A character of a [string] stands for one UTF-16 code unit (those below
    256); the functions below look at code units one by one. *)

(** The double quote and the line feed. *)
Definition dquote : ascii := "034"%char.
Definition newline : ascii := "010"%char.

(** [value.includes(c)] for a one-character string [c]. *)
Fixpoint hasChar (c : ascii) (value : string) : bool :=
  match value with
  | EmptyString => false
  | String c' rest => Ascii.eqb c' c || hasChar c rest
  end.

(** The [replace] of [escapeCSV], with the flag [g]: every double quote of
    [value] is written twice. *)
Fixpoint doubleQuotes (value : string) : string :=
  match value with
  | EmptyString => EmptyString
  | String c rest =>
      if Ascii.eqb c dquote
      then String dquote (String dquote (doubleQuotes rest))
      else String c (doubleQuotes rest)
  end.

(** [escapeCSV] of [ExportCSVModal.tsx]. *)
Definition escapeCSV (value : string) : string :=
  if hasChar ","%char value || hasChar dquote value || hasChar newline value
  then String dquote (doubleQuotes value ++ String dquote EmptyString)
  else value.

(** [/[a-zA-Z0-9]/] on one code unit. *)
Definition isAlphanumeric (c : ascii) : bool :=
  let n := nat_of_ascii c in
  (Nat.leb 97 n && Nat.leb n 122) || (Nat.leb 65 n && Nat.leb n 90) ||
  (Nat.leb 48 n && Nat.leb n 57).

(** [/\d/] on one code unit. *)
Definition isDigit (c : ascii) : bool :=
  let n := nat_of_ascii c in Nat.leb 48 n && Nat.leb n 57.

Fixpoint mapChars (f : ascii -> ascii) (value : string) : string :=
  match value with
  | EmptyString => EmptyString
  | String c rest => String (f c) (mapChars f rest)
  end.

Fixpoint keepChars (keep : ascii -> bool) (value : string) : string :=
  match value with
  | EmptyString => EmptyString
  | String c rest =>
      if keep c then String c (keepChars keep rest) else keepChars keep rest
  end.

(** [project.name.replace(/[^a-zA-Z0-9]/g, '_')], the head of the file name
    of the export. *)
Definition sanitizedName (name : string) : string :=
  mapChars (fun c => if isAlphanumeric c then c else "_"%char) name.

(** The label of a marker of [BoreholeMap.tsx]:
    [borehole.code.replace(/\D/g, '').padStart(2, '0')]. *)
Definition markerLabel (code : string) : string :=
  padStart 2 "0"%char (keepChars isDigit code).

(** Where the marker of the borehole at position [index] is drawn: five
    markers to a row, [(left, top)] in pixels. The position is what
    [boreholes.indexOf(borehole)] gives for the records of a project, which
    are distinct objects. *)
Definition markerPosition (index : nat) : nat * nat :=
  let cols := 5 in
  let row := index / cols in
  let col := index mod cols in
  (80 + col * 133, 100 + row * 138).

(** The code the drawer of [BoreholeDrawer.tsx] proposes for a new borehole:
    [project ? generateBoreholeCode(project) : 'BH01'] on what [getProject]
    returns. *)
Definition nextCode (projectId : string) : M string :=
  project <- storage.getProject projectId ;;
  ret (match project with
       | Some p => generateBoreholeCode p
       | None => "BH01"
       end).

(** [Array.from(new Set(values))]: the values in the order of their first
    occurrence. *)
Definition fromSet (values : list string) : list string :=
  fold_left (fun seen v => if includes seen v then seen else (seen ++ [v])%list)
            values [].

(** [Boolean(client)] for an optional string. *)
Definition truthy (client : option string) : bool :=
  match client with
  | Some c => negb (String.eqb c "")
  | None => false
  end.

(** The clients offered as filters by the projects page:
    [Array.from(new Set(projects.map(p => p.client).filter(Boolean)))]. *)
Definition uniqueClients (projects : list Project.t) : list string :=
  fromSet
    (map (fun c => or_else c "")
         (filter truthy (map Project.client projects))).

(** ** Sample data *)

(** Two clock readings, the second later than the first. *)
Definition now0 : string := "2024-01-01T00:00:00.000Z".
Definition now1 : string := "2024-06-30T12:00:00.000Z".

(** A borehole with a given code, and the project "p1" with boreholes of
    given codes, all stamped [now0]. *)
Definition boreholeWithCode (c : string) : Borehole.t :=
  Borehole.mk ("id-" ++ c) c None (Num 0) (Num 0) Null Null Planned (Some "")
    now0 now0.

Definition projectWithCodes (codes : list string) : Project.t :=
  Project.mk "p1" "Acme Survey" (Some "") (Some "") WGS84
    (map boreholeWithCode codes) now0 now0 Active.

(** A world whose storage holds [projects] and accepts reads and writes, whose
    clock reads [now] at every call and whose [n]-th identifier is [u] followed
    by [n]. *)
Definition worldWith (projects : list Project.t) (now u : string) : World :=
  mkWorld (mkLocalStorage (Some (Json projects)) Available)
          (fun _ => now) (fun n => u ++ String_of n) [].

(** The store of the scenario: one project with the boreholes BH01 and BH02,
    stamped [now0]; the clock reads [now1]. *)
Definition acme : Project.t := projectWithCodes ["BH01"; "BH02"].
Definition acmeWorld : World := worldWith [acme] now1 "uuid-".

(** [{ name: "Renamed" }], and an argument that carries the three keys the
    Store's parameter type leaves out. *)
Definition renameOnly : ProjectUpdates.t :=
  ProjectUpdates.mk None (Some "Renamed") None None None None None None None.
Definition overwriteAll : ProjectUpdates.t :=
  ProjectUpdates.mk (Some "p2") None None None None (Some [])
    (Some "1999-12-31T00:00:00.000Z") None None.

Definition overwritten : Project.t :=
  Project.mk "p2" "Acme Survey" (Some "") (Some "") WGS84 []
    "1999-12-31T00:00:00.000Z" now1 Active.

(** [{ name: "X" }] *)
Definition dataX : ProjectData.t := ProjectData.mk "X" None None None.

(** The scenario's arguments of [addBorehole]: a placement with no code,
    one with an empty code, and one with the code BH01. *)
Definition placed : BoreholeData.t :=
  BoreholeData.mk None None (-36.84)%float 174.76%float Undefined Undefined
    None None.
Definition placedEmptyCode : BoreholeData.t :=
  BoreholeData.withCode (Some "") placed.
Definition placedBH01 : BoreholeData.t :=
  BoreholeData.withCode (Some "BH01") placed.

(** What [addBorehole] returns for [placedEmptyCode] in [acmeWorld]. *)
Definition placedThird : Borehole.t :=
  Borehole.mk "uuid-0" "BH03" None (Num (-36.84)) (Num 174.76) Null Null
    Planned (Some "") now1 now1.

(** [before < after] on timestamps: the order of JavaScript strings, which on
    [toISOString] texts is the order of the instants. *)
Definition strictlyLater (before after : string) : bool :=
  String.ltb before after.

(** A project without boreholes in a world whose clock reads [now0] at every
    call: calls made within one millisecond. What [addBorehole] of [placed]
    returns there, and what [updateBorehole] makes of it. *)
Definition emptyAcme : Project.t := projectWithCodes [].
Definition oneMillisecond : World := worldWith [emptyAcme] now0 "uuid-".
Definition placedFirst : Borehole.t :=
  Borehole.mk "uuid-0" "BH01" None (Num (-36.84)) (Num 174.76) Null Null
    Planned (Some "") now0 now0.
Definition completedFirst : Borehole.t :=
  Borehole.mk "uuid-0" "BH01" None (Num (-36.84)) (Num 174.76) Null Null
    Completed (Some "") now0 now0.

(** A session of the Facade over [acmeWorld]: the project is loaded, its
    first borehole is selected, and the project is then deleted. *)
Definition bh01 : Borehole.t := boreholeWithCode "BH01".
Definition loaded : useProjects.State * World :=
  useProjects.loadProject "p1" useProjects.initial acmeWorld.
Definition selecting : useProjects.State * World :=
  (useProjects.selectBorehole (Some bh01) (fst loaded), snd loaded).
Definition orphaned : useProjects.State * World :=
  useProjects.deleteProject "p1" (fst selecting) (snd selecting).

(** The store of the scenario when the quota is exhausted, and when it holds
    text that does not parse. *)
Definition fullWorld : World :=
  mkWorld (mkLocalStorage (Some (Json [acme])) Full)
          (fun _ => now1) (fun n => "uuid-" ++ String_of n) [].
Definition corruptWorld : World :=
  mkWorld (mkLocalStorage (Some (Text "{oops")) Available)
          (fun _ => now1) (fun n => "uuid-" ++ String_of n) [].

(** A second project, and a store that holds both. *)
Definition harbour : Project.t :=
  Project.mk "p2" "Harbour Works" (Some "Port Authority") (Some "") WGS84
    [boreholeWithCode "BH01"] now0 now0 Archived.
Definition twoProjects : World := worldWith [acme; harbour] now1 "uuid-".


(** A storage whose text is [null], written by another program. *)
Definition nullMedium : Medium := mkMedium (Some (Foreign JNull)) Available.

(** A placement whose ground level is [-0] and whose depth is [Infinity];
    what [addBorehole] returns for it in [acmeWorld], and what is read
    afterwards. *)
Definition placedOdd : BoreholeData.t :=
  BoreholeData.mk None None (-36.84)%float 174.76%float
    (Num (-0)) (Num infinity) None None.
Definition placedOddReturned : Borehole.t :=
  Borehole.mk "uuid-0" "BH03" None (Num (-36.84)) (Num 174.76)
    (Num (-0)) (Num infinity) Planned (Some "") now1 now1.
Definition placedOddRead : Borehole.t :=
  Borehole.mk "uuid-0" "BH03" None (Num (-36.84)) (Num 174.76)
    (Num 0) Null Planned (Some "") now1 now1.

(** ** Vocabulary of the properties *)

(** How often a character occurs in a string. *)
Fixpoint countChar (c : ascii) (value : string) : nat :=
  match value with
  | EmptyString => 0
  | String c' rest => (if Ascii.eqb c' c then 1 else 0) + countChar c rest
  end.

(** A call that started in [w] threw [error] and left [w']: the error is the
    one [saveProjects] raises, the storage refused the write and holds what
    it held, and the refusal was logged. *)
Definition failedWrite (w : World) (error : string) (w' : World) : Prop :=
  error = "Failed to save data" /\
  access (localStorage w) <> Available /\
  localStorage w' = localStorage w /\
  hd_error (console w') = Some "Failed to save projects:".

(** Between [w] and [w'] the projects kept their ids and their order, and
    every project with another id than [projectId] is as it was. *)
Definition onlyProjectChanged (projectId : string) (w w' : World) : Prop :=
  map Project.id (stored w') = map Project.id (stored w) /\
  (forall j p,
      nth_error (stored w) j = Some p ->
      Project.id p <> projectId ->
      nth_error (stored w') j = Some p).

(** ** Properties *)

Example bhCode_1 : bhCode 1 = "BH01".
Proof. reflexivity. Qed.

Example bhCode_42 : bhCode 42 = "BH42".
Proof. reflexivity. Qed.

Example bhCode_100 : bhCode 100 = "BH100".
Proof. reflexivity. Qed.

Example generate_gap :
  generateBoreholeCode (projectWithCodes ["BH01"; "BH02"; "BH04"]) = "BH03".
Proof. reflexivity. Qed.

(** *** Codes are read back, hence distinct for distinct numbers *)

Lemma padStart_String_of (num : nat) :
  option_map Nat.of_uint
    (NilEmpty.uint_of_string (padStart 2 "0"%char (String_of num))) = Some num.
Proof.
  unfold padStart, String_of.
  pose proof (NilEmpty.usu (Nat.to_uint num)) as Hback.
  pose proof (Unsigned.of_to num) as Hnum.
  destruct (String.length (NilEmpty.string_of_uint (Nat.to_uint num)))
    as [|[|len]]; cbn [Nat.sub repeat string_of_list_ascii String.append
                       NilEmpty.uint_of_string];
    rewrite Hback; unfold Nat.of_uint in *; cbn; now rewrite Hnum.
Qed.

Lemma codeNumber_bhCode (num : nat) : codeNumber (bhCode num) = Some num.
Proof.
  unfold bhCode. cbn [String.append codeNumber]. apply padStart_String_of.
Qed.

Lemma bhCode_inj (a b : nat) : bhCode a = bhCode b -> a = b.
Proof.
  intros Heq.
  assert (Hsome : Some a = Some b)
    by (rewrite <- (codeNumber_bhCode a), <- (codeNumber_bhCode b); now rewrite Heq).
  now injection Hsome.
Qed.

Lemma includes_In (array : list string) (x : string) :
  includes array x = true <-> In x array.
Proof.
  unfold includes. rewrite existsb_exists. split.
  - intros (y & Hin & Heq). apply String.eqb_eq in Heq. now subst.
  - intros Hin. exists x. split; [assumption | apply String.eqb_refl].
Qed.

Lemma includes_not_In (array : list string) (x : string) :
  includes array x = false <-> ~ In x array.
Proof.
  rewrite <- includes_In. destruct (includes array x); split; congruence.
Qed.

(** *** The loop leaves within [length existingCodes + 1] tests *)

(** A run of consecutive numbers whose codes are all taken is no longer than
    the list of codes. *)
Lemma taken_run_short (existingCodes : list string) (num len : nat) :
  (forall k, num <= k < num + len -> includes existingCodes (bhCode k) = true) ->
  len <= length existingCodes.
Proof.
  intros Htaken.
  rewrite <- (length_seq len num), <- (length_map bhCode).
  apply NoDup_incl_length.
  - apply NoDup_map_NoDup_ForallPairs; [| apply seq_NoDup].
    intros x y _ _. apply bhCode_inj.
  - intros c Hc. apply in_map_iff in Hc. destruct Hc as (k & <- & Hk).
    apply in_seq in Hk. apply includes_In. now apply Htaken.
Qed.

(** What [scan] returns: either it left the loop at a free code, or it used
    up its fuel on a run of taken codes. *)
Lemma scan_spec (existingCodes : list string) (fuel : nat) :
  forall num,
    let result := scan fuel existingCodes num in
    num <= result <= num + fuel /\
    (forall k, num <= k < result -> includes existingCodes (bhCode k) = true) /\
    (result < num + fuel -> includes existingCodes (bhCode result) = false).
Proof.
  induction fuel as [|fuel IH]; intros num; cbv zeta; cbn [scan].
  - repeat split; try lia.
  - destruct (includes existingCodes (bhCode num)) eqn:Htaken.
    + destruct (IH (S num)) as (Hrange & Hbelow & Hfree).
      repeat split; try lia.
      * intros k Hk. destruct (Nat.eq_dec k num) as [->|Hne]; [assumption|].
        apply Hbelow. lia.
      * intros Hlt. apply Hfree. lia.
    + repeat split; try lia. intros _. assumption.
Qed.

Lemma scan_exits (existingCodes : list string) :
  let result := scan (S (length existingCodes)) existingCodes 1 in
  1 <= result <= S (length existingCodes) /\
  includes existingCodes (bhCode result) = false /\
  (forall k, 1 <= k < result -> includes existingCodes (bhCode k) = true).
Proof.
  destruct (scan_spec existingCodes (S (length existingCodes)) 1)
    as (Hrange & Hbelow & Hfree).
  cbn zeta.
  set (result := scan (S (length existingCodes)) existingCodes 1) in *.
  assert (Hlt : result < 1 + S (length existingCodes)).
  { destruct (Nat.eq_dec result (1 + S (length existingCodes))) as [Hfull|]; [|lia].
    pose proof (taken_run_short existingCodes 1 (S (length existingCodes))) as Hshort.
    rewrite <- Hfull in Hshort. specialize (Hshort Hbelow). lia. }
  repeat split; try lia; auto.
Qed.

(** [scan] and the loop agree, whenever [scan] left at a free code. *)
Lemma scan_while_loop (existingCodes : list string) (fuel : nat) :
  forall num,
    includes existingCodes (bhCode (scan fuel existingCodes num)) = false ->
    while_loop existingCodes num
      (S (scan fuel existingCodes num - num)) (scan fuel existingCodes num).
Proof.
  induction fuel as [|fuel IH]; intros num; cbn [scan].
  - intros Hfree. rewrite Nat.sub_diag. now constructor.
  - destruct (includes existingCodes (bhCode num)) eqn:Htaken.
    + intros Hfree. specialize (IH (S num) Hfree).
      pose proof (scan_spec existingCodes fuel (S num)) as (Hrange & _).
      replace (scan fuel existingCodes (S num) - num)
        with (S (scan fuel existingCodes (S num) - S num)) by lia.
      now apply loop_next.
    + intros _. rewrite Nat.sub_diag. now constructor.
Qed.

Lemma while_loop_deterministic (existingCodes : list string) num tests result :
  while_loop existingCodes num tests result ->
  forall tests' result',
    while_loop existingCodes num tests' result' ->
    tests' = tests /\ result' = result.
Proof.
  induction 1 as [num Hfree | num tests result Htaken _ IH];
    intros tests' result' Hrun; inversion Hrun; subst; try congruence.
  - now split.
  - destruct (IH _ _ H0) as [-> ->]. now split.
Qed.

(** *** The shape of a code *)

Lemma bhCode_one_digit (num : nat) :
  num < 10 -> bhCode num = "BH0" ++ String_of num.
Proof.
  intros Hlt. do 10 (destruct num as [|num]; [reflexivity|]). lia.
Qed.

Lemma String_of_two_digits (num : nat) :
  10 <= num -> 2 <= String.length (String_of num).
Proof.
  intros Hge. unfold String_of.
  pose proof (NilEmpty.usu (Nat.to_uint num)) as Hback.
  pose proof (Unsigned.of_to num) as Hnum.
  destruct (NilEmpty.string_of_uint (Nat.to_uint num)) as [|c [|c' rest]];
    cbn [String.length]; try lia; exfalso.
  - cbn in Hback. injection Hback as Hnil. rewrite <- Hnil in Hnum.
    cbn in Hnum. lia.
  - cbn [NilEmpty.uint_of_string] in Hback.
    destruct c as [[] [] [] [] [] [] [] []]; cbn in Hback; try discriminate;
      injection Hback as Hdigit; rewrite <- Hdigit in Hnum; cbn in Hnum; lia.
Qed.

Lemma bhCode_more_digits (num : nat) :
  10 <= num -> bhCode num = "BH" ++ String_of num.
Proof.
  intros Hge. apply String_of_two_digits in Hge.
  unfold bhCode, padStart.
  destruct (String.length (String_of num)) as [|[|len]]; [lia | lia |].
  reflexivity.
Qed.

(** *** What [generateBoreholeCode] returns *)

Lemma generateBoreholeCode_spec (project : Project.t) :
  let existingCodes := map Borehole.code (Project.boreholes project) in
  exists num,
    1 <= num <= S (length existingCodes) /\
    generateBoreholeCode project = bhCode num /\
    ~ In (bhCode num) existingCodes /\
    (forall k, 1 <= k < num -> In (bhCode k) existingCodes).
Proof.
  cbv zeta. unfold generateBoreholeCode.
  destruct (scan_exits (map Borehole.code (Project.boreholes project)))
    as (Hrange & Hfree & Hbelow).
  eexists. split; [exact Hrange|]. split; [reflexivity|]. split.
  - now apply includes_not_In.
  - intros k Hk. apply includes_In. now apply Hbelow.
Qed.

(** The code returned depends on which codes are taken, and on nothing else:
    it is the code of [num] as soon as [num] is free and all below are taken. *)
Lemma generateBoreholeCode_unique (project : Project.t) (num : nat) :
  1 <= num ->
  ~ In (bhCode num) (map Borehole.code (Project.boreholes project)) ->
  (forall k, 1 <= k < num ->
             In (bhCode k) (map Borehole.code (Project.boreholes project))) ->
  generateBoreholeCode project = bhCode num.
Proof.
  intros Hpos Hfree Hbelow.
  destruct (generateBoreholeCode_spec project)
    as (num' & Hrange' & -> & Hfree' & Hbelow').
  f_equal.
  destruct (Nat.lt_trichotomy num' num) as [Hlt | [Heq | Hgt]]; [| assumption |].
  - exfalso. apply Hfree'. apply Hbelow. lia.
  - exfalso. apply Hfree. apply Hbelow'. lia.
Qed.

(** C1: [generateBoreholeCode] returns the code [BH{NN}] of the lowest number,
    counted from 1, whose code no borehole of the project has. The code is
    ["BH01"] when the project has no borehole, ["BH03"] when the codes taken
    are BH01, BH02 and BH04 (in any order), and the code after BH01 .. BH{n}
    is that of [n + 1] for every [n]: after BH99 comes ["BH100"]. A number
    below 10 is written with a leading zero, a number from 10 on as it is. *)
Theorem generateBoreholeCode_lowest_unused :
  (forall project : Project.t,
      let existingCodes := map Borehole.code (Project.boreholes project) in
      exists num,
        1 <= num /\
        generateBoreholeCode project = bhCode num /\
        ~ In (bhCode num) existingCodes /\
        (forall k, 1 <= k < num -> In (bhCode k) existingCodes)) /\
  (forall project : Project.t,
      Project.boreholes project = [] ->
      generateBoreholeCode project = "BH01") /\
  (forall project : Project.t,
      (forall c, In c (map Borehole.code (Project.boreholes project)) <->
                 In c ["BH01"; "BH02"; "BH04"]) ->
      generateBoreholeCode project = "BH03") /\
  (forall (project : Project.t) (n : nat),
      (forall c, In c (map Borehole.code (Project.boreholes project)) <->
                 In c (map bhCode (seq 1 n))) ->
      generateBoreholeCode project = bhCode (S n)) /\
  bhCode 99 = "BH99" /\ bhCode 100 = "BH100" /\
  (forall num, num < 10 -> bhCode num = "BH0" ++ String_of num) /\
  (forall num, 10 <= num -> bhCode num = "BH" ++ String_of num).
Proof.
  split; [| split; [| split; [| split; [| split; [| split; [| split]]]]]].
  - intros project. cbv zeta.
    destruct (generateBoreholeCode_spec project)
      as (num & Hrange & Hcode & Hfree & Hbelow).
    exists num. repeat split; try assumption; lia.
  - intros project Hempty. unfold generateBoreholeCode. now rewrite Hempty.
  - intros project Hcodes.
    change "BH03" with (bhCode 3). apply generateBoreholeCode_unique.
    + lia.
    + rewrite Hcodes. cbn. intuition discriminate.
    + intros k Hk. rewrite Hcodes.
      assert (Hcases : k = 1 \/ k = 2) by lia.
      destruct Hcases as [-> | ->]; cbn; auto.
  - intros project n Hcodes. apply generateBoreholeCode_unique.
    + lia.
    + rewrite Hcodes. intros Hin. apply in_map_iff in Hin.
      destruct Hin as (k & Heq & Hk). apply bhCode_inj in Heq.
      apply in_seq in Hk. lia.
    + intros k Hk. rewrite Hcodes. apply in_map. apply in_seq. lia.
  - reflexivity.
  - reflexivity.
  - exact bhCode_one_digit.
  - exact bhCode_more_digits.
Qed.

(** C9: the loop of [generateBoreholeCode] terminates. Entered with counter 1
    it leaves after testing at most [number of boreholes + 1] candidate
    numbers, at a number whose code no borehole of the project has, and that
    number's code is what [generateBoreholeCode] returns; the loop has no
    other run. *)
Theorem generateBoreholeCode_terminates (project : Project.t) :
  let existingCodes := map Borehole.code (Project.boreholes project) in
  exists tests result,
    while_loop existingCodes 1 tests result /\
    tests <= length (Project.boreholes project) + 1 /\
    includes existingCodes (bhCode result) = false /\
    generateBoreholeCode project = bhCode result /\
    (forall tests' result',
        while_loop existingCodes 1 tests' result' ->
        tests' = tests /\ result' = result).
Proof.
  cbv zeta.
  set (existingCodes := map Borehole.code (Project.boreholes project)).
  destruct (scan_exits existingCodes) as (Hrange & Hfree & Hbelow).
  pose proof (scan_while_loop existingCodes (S (length existingCodes)) 1 Hfree)
    as Hrun.
  exists (S (scan (S (length existingCodes)) existingCodes 1 - 1)),
         (scan (S (length existingCodes)) existingCodes 1).
  split; [exact Hrun|]. split.
  - assert (Hlen : length existingCodes = length (Project.boreholes project))
      by apply length_map.
    lia.
  - split; [exact Hfree|]. split; [reflexivity|].
    intros tests' result' Hrun'.
    exact (while_loop_deterministic _ _ _ _ Hrun _ _ Hrun').
Qed.

(** *** Arrays: [find], [findIndex] and assignment at an index *)

Section Arrays.
Context {A : Type}.
Variable pred : A -> bool.

Lemma find_ref_Some (array : list A) (index : nat) (x : A) :
  find_ref pred array = Some (index, x) ->
  nth_error array index = Some x /\ pred x = true /\
  (forall j y, j < index -> nth_error array j = Some y -> pred y = false).
Proof.
  revert index. induction array as [|a rest IH]; intros index; cbn [find_ref].
  - discriminate.
  - destruct (pred a) eqn:Ha.
    + intros [= <- <-]. repeat split; [assumption | lia].
    + destruct (find_ref pred rest) as [[i y]|]; [|discriminate].
      intros [= <- <-]. destruct (IH i eq_refl) as (Hnth & Hx & Hbefore).
      repeat split; try assumption.
      intros [|j] z Hj; cbn [nth_error].
      * now intros [= <-].
      * apply Hbefore. lia.
Qed.

Lemma find_ref_None (array : list A) :
  find_ref pred array = None <-> (forall x, In x array -> pred x = false).
Proof.
  induction array as [|a rest IH]; cbn [find_ref].
  - split; [intros _ x [] | reflexivity].
  - destruct (pred a) eqn:Ha.
    + split; [discriminate|]. intros Hall.
      rewrite (Hall a (or_introl eq_refl)) in Ha. discriminate.
    + destruct (find_ref pred rest) as [[i y]|].
      * split; [discriminate|]. intros Hall.
        assert (Hbad : Some (i, y) = None)
          by (apply IH; intros x Hx; apply Hall; now right).
        discriminate.
      * split; [|reflexivity]. intros _ x [<- | Hx]; [assumption|].
        now apply IH.
Qed.

Lemma find_ref_find (array : list A) :
  find pred array = option_map snd (find_ref pred array).
Proof.
  induction array as [|a rest IH]; cbn [find find_ref]; [reflexivity|].
  destruct (pred a); [reflexivity|]. rewrite IH.
  now destruct (find_ref pred rest) as [[i y]|].
Qed.

Lemma find_ref_of_find (array : list A) (x : A) :
  find pred array = Some x ->
  exists index, find_ref pred array = Some (index, x).
Proof.
  rewrite find_ref_find.
  destruct (find_ref pred array) as [[i y]|]; [|discriminate].
  intros [= <-]. now exists i.
Qed.

Lemma find_ref_assign (array : list A) (index : nat) (x y : A) :
  find_ref pred array = Some (index, x) ->
  pred y = true ->
  find_ref pred (assign index y array) = Some (index, y).
Proof.
  revert index. induction array as [|a rest IH]; intros index; cbn [find_ref].
  - discriminate.
  - destruct (pred a) eqn:Ha.
    + intros [= <- <-] Hy. cbn [assign find_ref]. now rewrite Hy.
    + destruct (find_ref pred rest) as [[i z]|] eqn:Hrest; [|discriminate].
      intros [= <- <-] Hy. cbn [assign find_ref]. rewrite Ha.
      now rewrite (IH i eq_refl Hy).
Qed.

Lemma nth_error_assign (array : list A) (index : nat) (x y : A) :
  nth_error array index = Some x ->
  nth_error (assign index y array) index = Some y.
Proof.
  revert index. induction array as [|a rest IH]; intros [|i]; cbn;
    try discriminate; auto.
Qed.

Lemma nth_error_assign_other (array : list A) (index j : nat) (y : A) :
  j <> index ->
  nth_error (assign index y array) j = nth_error array j.
Proof.
  revert index j. induction array as [|a rest IH]; intros [|i] [|j] Hne; cbn;
    try reflexivity; try lia.
  apply IH. lia.
Qed.

Lemma length_assign (array : list A) (index : nat) (y : A) :
  length (assign index y array) = length array.
Proof.
  revert index. induction array as [|a rest IH]; intros [|i]; cbn; auto.
Qed.

(** [array.filter(pred)] keeps the length exactly when it drops nothing. *)
Lemma filter_length_same (array : list A) :
  length (filter pred array) = length array <->
  (forall x, In x array -> pred x = true).
Proof.
  induction array as [|a rest IH]; cbn [filter length].
  - split; [intros _ x [] | reflexivity].
  - pose proof (filter_length_le pred rest) as Hle.
    destruct (pred a) eqn:Ha; cbn [length].
    + split.
      * intros Hlen x [<- | Hx]; [assumption|]. apply IH; [lia | assumption].
      * intros Hall. f_equal. apply IH. intros x Hx. apply Hall. now right.
    + split; [lia|]. intros Hall.
      rewrite (Hall a (or_introl eq_refl)) in Ha. discriminate.
Qed.
End Arrays.

(** *** Records through JSON *)

Example roundTripNumber_examples :
  roundTripNumber (-0) = Num 0 /\ roundTripNumber nan = Null /\
  roundTripNumber infinity = Null /\ roundTripNumber neg_infinity = Null /\
  roundTripNumber (-36.84) = Num (-36.84) /\ roundTripNumber 0 = Num 0.
Proof. repeat split; reflexivity. Qed.

(** What was read from JSON is written and read again as it is. *)
Lemma roundTripNumber_twice (n : float) :
  roundTripNullable (roundTripNumber n) = roundTripNumber n.
Proof.
  unfold roundTripNumber.
  destruct (is_nan n || is_infinity n) eqn:Hfinite; [reflexivity|].
  destruct (is_zero n) eqn:Hzero; cbn [roundTripNullable]; [reflexivity|].
  unfold roundTripNumber. now rewrite Hfinite, Hzero.
Qed.

Lemma roundTripNullable_twice (v : Nullable) :
  roundTripNullable (roundTripNullable v) = roundTripNullable v.
Proof.
  destruct v as [| |n]; cbn [roundTripNullable]; try reflexivity.
  apply roundTripNumber_twice.
Qed.

Lemma roundTripBorehole_twice (b : Borehole.t) :
  roundTripBorehole (roundTripBorehole b) = roundTripBorehole b.
Proof.
  unfold roundTripBorehole.
  cbn [Borehole.id Borehole.code Borehole.name Borehole.latitude
       Borehole.longitude Borehole.groundLevel Borehole.totalDepth
       Borehole.status Borehole.notes Borehole.createdAt Borehole.updatedAt].
  now rewrite !roundTripNullable_twice.
Qed.

Lemma roundTripProject_twice (p : Project.t) :
  roundTripProject (roundTripProject p) = roundTripProject p.
Proof.
  unfold roundTripProject.
  cbn [Project.id Project.name Project.client Project.locationDescription
       Project.coordinateSystem Project.boreholes Project.createdAt
       Project.updatedAt Project.status].
  rewrite map_map. f_equal. apply map_ext. exact roundTripBorehole_twice.
Qed.

Lemma map_fixed {A : Type} (f : A -> A) (array : list A) :
  map f array = array <-> (forall x, In x array -> f x = x).
Proof.
  induction array as [|a rest IH]; cbn [map In].
  - split; [intros _ x [] | reflexivity].
  - split.
    + intros [= Ha Hrest] x [<- | Hx]; [exact Ha | now apply IH].
    + intros Hall. f_equal; [now apply Hall; left|].
      apply IH. intros x Hx. apply Hall. now right.
Qed.

Lemma map_assign {A B : Type} (f : A -> B) (array : list A) (index : nat)
    (y : A) :
  map f (assign index y array) = assign index (f y) (map f array).
Proof.
  revert index. induction array as [|a rest IH]; intros [|i]; cbn;
    try reflexivity. now rewrite IH.
Qed.

Lemma map_filter_fixed {A : Type} (f : A -> A) (pred : A -> bool)
    (array : list A) :
  map f array = array -> map f (filter pred array) = filter pred array.
Proof.
  intros Hfixed. apply map_fixed. intros x Hx. apply filter_In in Hx.
  now apply (proj1 (map_fixed f array) Hfixed).
Qed.

(** The boreholes of a project that JSON gives back as it is. *)
Lemma boreholes_exact (p : Project.t) :
  roundTripProject p = p ->
  map roundTripBorehole (Project.boreholes p) = Project.boreholes p.
Proof.
  intros Hexact. now apply (f_equal Project.boreholes) in Hexact.
Qed.

Lemma borehole_exact (p : Project.t) (b : Borehole.t) :
  roundTripProject p = p -> In b (Project.boreholes p) ->
  roundTripBorehole b = b.
Proof.
  intros Hexact. apply map_fixed. now apply boreholes_exact.
Qed.

(** *** Running the Store's reads and writes *)

Lemma getProjects_total (w : World) :
  exists w',
    storage.getProjects w = (Returned (stored w), w') /\
    localStorage w' = localStorage w /\
    clock w' = clock w /\ uuids w' = uuids w.
Proof.
  unfold stored, storage.getProjects, try_catch, bind, localStorage_getItem.
  destruct w as [[[blob|] acc] clk ids out]; cbn [localStorage access item].
  - destruct acc; cbn;
      try (destruct blob as [projects|data]; cbn;
           [| destruct (String.eqb data "")]; cbn);
      eexists; repeat split.
  - destruct acc; cbn; eexists; repeat split.
Qed.

Lemma saveProjects_available (w : World) (projects : list Project.t) :
  access (localStorage w) = Available ->
  storage.saveProjects projects w =
    (Returned tt,
     mkWorld (mkLocalStorage (Some (Json projects)) Available)
             (clock w) (uuids w) (console w)).
Proof.
  intros Hacc.
  unfold storage.saveProjects, try_catch, localStorage_setItem, JSON_stringify.
  now rewrite Hacc.
Qed.

Lemma saveProjects_returned (w w' : World) (projects : list Project.t) (u : unit) :
  storage.saveProjects projects w = (Returned u, w') ->
  access (localStorage w) = Available.
Proof.
  unfold storage.saveProjects, try_catch, localStorage_setItem, bind,
    console_error, throw.
  destruct (access (localStorage w)); [reflexivity | discriminate | discriminate].
Qed.

Lemma stored_Json (w : World) (projects : list Project.t) :
  localStorage w = mkLocalStorage (Some (Json projects)) Available ->
  stored w = map roundTripProject projects.
Proof.
  intros Hls.
  unfold stored, storage.getProjects, try_catch, bind, localStorage_getItem.
  now rewrite Hls.
Qed.

(** What is read was read from JSON: written again, it is read as it is. *)
Lemma stored_exact (w : World) :
  map roundTripProject (stored w) = stored w.
Proof.
  unfold stored, storage.getProjects, try_catch, bind, localStorage_getItem.
  destruct w as [[[[projects|data]|] []] clk ids out]; cbn; try reflexivity;
    try (now destruct (String.eqb data ""));
    rewrite map_map; apply map_ext; exact roundTripProject_twice.
Qed.

Lemma stored_In_exact (w : World) (p : Project.t) :
  In p (stored w) -> roundTripProject p = p.
Proof. apply map_fixed. apply stored_exact. Qed.

Lemma found_exact (w : World) (projectId : string) (index : nat)
    (p : Project.t) :
  find_ref (storage.hasId projectId) (stored w) = Some (index, p) ->
  roundTripProject p = p.
Proof.
  intros Hfind. destruct (find_ref_Some _ _ _ _ Hfind) as (Hnth & _).
  apply (stored_In_exact w). now apply (nth_error_In _ index).
Qed.

(** A collection that JSON gives back as it is, once written, is what is
    read. *)
Lemma stored_saved (w : World) (projects : list Project.t) :
  localStorage w = mkLocalStorage (Some (Json projects)) Available ->
  map roundTripProject projects = projects ->
  stored w = projects.
Proof. intros Hls Hexact. now rewrite (stored_Json _ _ Hls). Qed.

(** After [projects[index] = project'] on the collection read and a write,
    the collection read has [project'] as JSON gives it back at [index], and
    the other projects as they were. *)
Lemma stored_assigned (w w' : World) (index : nat) (project' : Project.t) :
  localStorage w' =
    mkLocalStorage (Some (Json (assign index project' (stored w)))) Available ->
  stored w' = assign index (roundTripProject project') (stored w).
Proof.
  intros Hls. now rewrite (stored_Json _ _ Hls), map_assign, stored_exact.
Qed.

(** What is read depends on the storage alone. *)
Lemma stored_ext (w1 w2 : World) :
  localStorage w1 = localStorage w2 -> stored w1 = stored w2.
Proof.
  destruct w1 as [ls1 clk1 ids1 out1], w2 as [ls2 clk2 ids2 out2].
  cbn [localStorage]. intros ->.
  unfold stored, storage.getProjects, try_catch, bind, localStorage_getItem.
  cbn [localStorage].
  destruct ls2 as [[[projects|data]|] []]; cbn; try reflexivity;
    now destruct (String.eqb data "").
Qed.

Lemma getProjects_Json (w : World) (projects : list Project.t) :
  localStorage w = mkLocalStorage (Some (Json projects)) Available ->
  storage.getProjects w = (Returned (stored w), w).
Proof.
  intros Hls.
  unfold stored, storage.getProjects, try_catch, bind, localStorage_getItem.
  now rewrite Hls.
Qed.

(** The project found after [projects[index] = project'] and a write, and
    what [getProject] returns then. *)
Lemma find_after_assign (w' : World) (projectId : string) (index : nat)
    (project project' : Project.t) (w : World) :
  find_ref (storage.hasId projectId) (stored w) = Some (index, project) ->
  localStorage w' =
    mkLocalStorage (Some (Json (assign index project' (stored w)))) Available ->
  Project.id project' = Project.id project ->
  find_ref (storage.hasId projectId) (stored w') =
    Some (index, roundTripProject project').
Proof.
  intros Hfind Hls Hid. rewrite (stored_assigned _ _ _ _ Hls).
  apply (find_ref_assign _ _ _ project); [exact Hfind|].
  destruct (find_ref_Some _ _ _ _ Hfind) as (_ & Hhas & _).
  unfold storage.hasId in *. cbn [roundTripProject Project.id].
  now rewrite Hid.
Qed.

Lemma getProject_assigned (w w' : World) (projectId : string) (index : nat)
    (project project' : Project.t) :
  find_ref (storage.hasId projectId) (stored w) = Some (index, project) ->
  localStorage w' =
    mkLocalStorage (Some (Json (assign index project' (stored w)))) Available ->
  Project.id project' = Project.id project ->
  storage.getProject projectId w' =
    (Returned (Some (roundTripProject project')), w').
Proof.
  intros Hfind Hls Hid.
  unfold storage.getProject, bind. rewrite (getProjects_Json _ _ Hls).
  unfold ret. rewrite find_ref_find.
  now rewrite (find_after_assign _ _ _ _ _ _ Hfind Hls Hid).
Qed.

(** C7, as the code has it: [listProjects] never throws, whatever text the
    storage holds. It returns what the stored text deserializes to, without
    checking it: the persisted collection when the text is the serialization
    of an array of projects, and any other JSON value as it is. It returns
    the empty sequence when nothing is stored, when the stored text is empty
    or does not parse, and when the storage cannot be read; a failure of the
    read or of the deserialization is caught and logged on the console. On
    the storage of a [World] this is the Store's [getProjects], which leaves
    the storage, the clock and the identifiers as they are. *)
Theorem getProjects_returns_what_it_parses :
  (forall (m : Medium) (out : list string),
      exists result out',
        getProjectsOn m out = (Returned result, out') /\
        (forall collection,
            readable m <> Denied ->
            held m = Some (OfStore (Json collection)) ->
            result = Projects (map roundTripProject collection) /\ out' = out) /\
        (forall value,
            readable m <> Denied ->
            held m = Some (Foreign value) ->
            result = NotProjects value /\ out' = out) /\
        (readable m <> Denied -> held m = None ->
         result = Projects [] /\ out' = out) /\
        (readable m <> Denied -> held m = Some (OfStore (Text "")) ->
         result = Projects [] /\ out' = out) /\
        (forall data,
            readable m <> Denied ->
            held m = Some (OfStore (Text data)) -> data <> "" ->
            result = Projects [] /\
            out' = "Failed to load projects:" :: out) /\
        (readable m = Denied ->
         result = Projects [] /\
         out' = "Failed to load projects:" :: out)) /\
  (forall w : World,
      exists w',
        storage.getProjects w = (Returned (stored w), w') /\
        localStorage w' = localStorage w /\
        clock w' = clock w /\ uuids w' = uuids w /\
        getProjectsOn (mediumOf w) (console w) =
          (Returned (Projects (stored w)), console w')).
Proof.
  split.
  - intros [text acc] out. unfold getProjectsOn, getItemOn.
    cbn [held readable]. destruct acc.
    3: { do 2 eexists. split; [reflexivity|].
         repeat split; try congruence. }
    all: destruct text as [[[projects|data]|value]|];
      cbn [emptyText is_empty parseText];
      try destruct (String.eqb_spec data "") as [Hempty|Hempty];
      do 2 eexists; (split; [reflexivity|]);
      repeat split; intros; subst; congruence.
  - intros w. unfold stored, mediumOf, getProjectsOn, getItemOn.
    unfold storage.getProjects, try_catch, bind, localStorage_getItem.
    destruct w as [[[[projects|data]|] []] clk ids out];
      cbn [localStorage access item console held readable option_map
           emptyText is_empty parseText JSON_parse ret throw console_error
           fst];
      try destruct (String.eqb data "");
      eexists; repeat split.
Qed.

(** C7, as stated, fails: when the stored text is [null], [listProjects]
    returns [null], which is neither a collection of projects nor the empty
    sequence; nothing is logged. *)
Lemma getProjects_returns_null :
  held nullMedium = Some (Foreign JNull) /\
  getProjectsOn nullMedium [] = (Returned (NotProjects JNull), []) /\
  NotProjects JNull <> Projects [].
Proof.
  repeat split; try reflexivity. discriminate.
Qed.

(** *** [updateProject] *)

Lemma find_hasId (projects : list Project.t) (projectId : string) :
  (forall p, In p projects -> Project.id p <> projectId) ->
  find_ref (storage.hasId projectId) projects = None.
Proof.
  intros Hnone. apply find_ref_None. intros p Hp.
  unfold storage.hasId. apply String.eqb_neq. now apply Hnone.
Qed.

Lemma updateProject_found (w : World) (projectId : string)
    (updates : ProjectUpdates.t) (index : nat) (found : Project.t) :
  find_ref (storage.hasId projectId) (stored w) = Some (index, found) ->
  access (localStorage w) = Available ->
  exists w',
    storage.updateProject projectId updates w =
      (Returned (Some (storage.mergeProject found updates (clock w 0))), w') /\
    localStorage w' =
      mkLocalStorage
        (Some (Json (assign index
                       (storage.mergeProject found updates (clock w 0))
                       (stored w))))
        Available.
Proof.
  intros Hfind Hacc.
  destruct (getProjects_total w) as (w1 & Hread & Hls & Hclock & _).
  unfold storage.updateProject, bind. rewrite Hread, Hfind.
  unfold Date_now. rewrite saveProjects_available
    by (cbn [localStorage]; now rewrite Hls).
  cbn [clock]. rewrite Hclock. eexists. split; reflexivity.
Qed.

Lemma updateProject_missing (w : World) (projectId : string)
    (updates : ProjectUpdates.t) :
  find_ref (storage.hasId projectId) (stored w) = None ->
  exists w',
    storage.updateProject projectId updates w = (Returned None, w') /\
    localStorage w' = localStorage w.
Proof.
  intros Hfind.
  destruct (getProjects_total w) as (w1 & Hread & Hls & _).
  unfold storage.updateProject, bind. rewrite Hread, Hfind.
  exists w1. now split.
Qed.

(** A merge that brings no boreholes writes nothing JSON changes. *)
Lemma mergeProject_exact (found : Project.t) (updates : ProjectUpdates.t)
    (now : string) :
  ProjectUpdates.boreholes updates = None ->
  roundTripProject found = found ->
  roundTripProject (storage.mergeProject found updates now) =
    storage.mergeProject found updates now.
Proof.
  intros Hboreholes Hexact. unfold roundTripProject, storage.mergeProject.
  cbn [Project.id Project.name Project.client Project.locationDescription
       Project.coordinateSystem Project.boreholes Project.createdAt
       Project.updatedAt Project.status].
  rewrite Hboreholes. cbn [or_else]. now rewrite (boreholes_exact _ Hexact).
Qed.

(** C2, as the code has it: for an argument that carries none of [id],
    [createdAt] and [boreholes] (the keys the parameter type leaves out),
    [updateProject] on a stored project, the storage accepting the write,
    returns the found record merged with the argument and stamped with the
    clock's reading; its [id], [createdAt] and [boreholes] are the prior ones,
    every other key the argument carries has the argument's value, and the
    merged record is persisted in the place of the found one. When no stored
    project has the id, it returns absent and leaves the storage as it is. *)
Theorem updateProject_merges (w : World) (projectId : string)
    (updates : ProjectUpdates.t) :
  (forall found,
      find (storage.hasId projectId) (stored w) = Some found ->
      ProjectUpdates.typed updates ->
      access (localStorage w) = Available ->
      exists index updated w',
        storage.updateProject projectId updates w = (Returned (Some updated), w') /\
        Project.id updated = Project.id found /\
        Project.createdAt updated = Project.createdAt found /\
        Project.boreholes updated = Project.boreholes found /\
        Project.updatedAt updated = clock w 0 /\
        Project.name updated =
          or_else (ProjectUpdates.name updates) (Project.name found) /\
        Project.client updated =
          or_else (ProjectUpdates.client updates) (Project.client found) /\
        Project.locationDescription updated =
          or_else (ProjectUpdates.locationDescription updates)
                  (Project.locationDescription found) /\
        Project.coordinateSystem updated =
          or_else (ProjectUpdates.coordinateSystem updates)
                  (Project.coordinateSystem found) /\
        Project.status updated =
          or_else (ProjectUpdates.status updates) (Project.status found) /\
        nth_error (stored w) index = Some found /\
        stored w' = assign index updated (stored w) /\
        storage.getProject projectId w' = (Returned (Some updated), w')) /\
  ((forall p, In p (stored w) -> Project.id p <> projectId) ->
   exists w',
     storage.updateProject projectId updates w = (Returned None, w') /\
     localStorage w' = localStorage w).
Proof.
  split.
  - intros found Hfound (Hid & Hcreated & Hboreholes) Hacc.
    destruct (find_ref_of_find _ _ _ Hfound) as (index & Hfind).
    destruct (updateProject_found w projectId updates index found Hfind Hacc)
      as (w' & Hrun & Hls).
    destruct (find_ref_Some _ _ _ _ Hfind) as (Hnth & Hhas & _).
    exists index, (storage.mergeProject found updates (clock w 0)), w'.
    split; [exact Hrun|].
    repeat split;
      try (unfold storage.mergeProject; cbn;
           rewrite ?Hid, ?Hcreated, ?Hboreholes; reflexivity).
    + exact Hnth.
    + rewrite (stored_assigned _ _ _ _ Hls).
      now rewrite (mergeProject_exact _ _ _ Hboreholes (found_exact _ _ _ _ Hfind)).
    + rewrite (getProject_assigned _ _ _ _ _ _ Hfind Hls).
      * now rewrite (mergeProject_exact _ _ _ Hboreholes
                       (found_exact _ _ _ _ Hfind)).
      * unfold storage.mergeProject. cbn [Project.id]. now rewrite Hid.
  - intros Hnone. apply updateProject_missing. now apply find_hasId.
Qed.

Lemma updateProject_merges_witness :
  exists index updated w',
    storage.updateProject "p1" renameOnly acmeWorld = (Returned (Some updated), w') /\
    Project.id updated = Project.id acme /\
    Project.createdAt updated = Project.createdAt acme /\
    Project.boreholes updated = Project.boreholes acme /\
    Project.updatedAt updated = clock acmeWorld 0 /\
    Project.name updated =
      or_else (ProjectUpdates.name renameOnly) (Project.name acme) /\
    Project.client updated =
      or_else (ProjectUpdates.client renameOnly) (Project.client acme) /\
    Project.locationDescription updated =
      or_else (ProjectUpdates.locationDescription renameOnly)
              (Project.locationDescription acme) /\
    Project.coordinateSystem updated =
      or_else (ProjectUpdates.coordinateSystem renameOnly)
              (Project.coordinateSystem acme) /\
    Project.status updated =
      or_else (ProjectUpdates.status renameOnly) (Project.status acme) /\
    nth_error (stored acmeWorld) index = Some acme /\
    stored w' = assign index updated (stored acmeWorld) /\
    storage.getProject "p1" w' = (Returned (Some updated), w').
Proof.
  apply (proj1 (updateProject_merges acmeWorld "p1" renameOnly) acme).
  - reflexivity.
  - repeat split; reflexivity.
  - reflexivity.
Defined.

(** C2, as stated, fails: an argument that carries [id], [createdAt] and
    [boreholes] overwrites all three in the stored record. *)
Lemma updateProject_overwrites_excluded_keys :
  find (storage.hasId "p1") (stored acmeWorld) = Some acme /\
  fst (storage.updateProject "p1" overwriteAll acmeWorld) =
    Returned (Some overwritten) /\
  stored (snd (storage.updateProject "p1" overwriteAll acmeWorld)) =
    [overwritten] /\
  Project.id overwritten <> Project.id acme /\
  Project.createdAt overwritten <> Project.createdAt acme /\
  Project.boreholes overwritten <> Project.boreholes acme.
Proof.
  repeat split; try reflexivity; cbn; discriminate.
Qed.

(** *** [createProject] *)

Lemma createProject_available (w : World) (data : ProjectData.t) :
  access (localStorage w) = Available ->
  exists w',
    storage.createProject data w =
      (Returned (storage.newProject (uuids w 0) (clock w 0) data), w') /\
    localStorage w' =
      mkLocalStorage
        (Some (Json (storage.newProject (uuids w 0) (clock w 0) data :: stored w)))
        Available.
Proof.
  intros Hacc.
  unfold storage.createProject, bind, Date_now, uuidv4.
  cbn [clock uuids localStorage console].
  set (w0 := mkWorld (localStorage w) (fun n => clock w (S n))
                     (fun n => uuids w (S n)) (console w)).
  destruct (getProjects_total w0) as (w1 & Hread & Hls & _).
  assert (Hsame : stored w0 = stored w) by now apply stored_ext.
  rewrite Hread, Hsame.
  rewrite saveProjects_available by (rewrite Hls; exact Hacc).
  eexists. split; reflexivity.
Qed.


(** A project put in front of the collection read, once written, is read
    in front of it when JSON gives it back as it is: so is a new project,
    which has no boreholes. *)
Lemma stored_created (w w' : World) (P : Project.t) :
  roundTripProject P = P ->
  localStorage w' = mkLocalStorage (Some (Json (P :: stored w))) Available ->
  stored w' = P :: stored w.
Proof.
  intros Hexact Hls. apply (stored_saved _ _ Hls).
  cbn [map]. now rewrite Hexact, stored_exact.
Qed.




(** *** [addBorehole] *)

Lemma bhCode_not_empty (num : nat) : bhCode num <> "".
Proof. unfold bhCode. cbn [String.append]. discriminate. Qed.

Lemma or_string_not_empty (a : option string) (b : string) :
  b <> "" -> or_string a b <> "".
Proof.
  intros Hb. destruct a as [s|]; cbn [or_string]; [|assumption].
  destruct (String.eqb_spec s ""); assumption.
Qed.

Lemma addBorehole_found (w : World) (projectId : string)
    (data : BoreholeData.t) (index : nat) (project : Project.t) :
  find_ref (storage.hasId projectId) (stored w) = Some (index, project) ->
  access (localStorage w) = Available ->
  exists w',
    storage.addBorehole projectId data w =
      (Returned (Some (storage.newBorehole (uuids w 0) (clock w 0) project data)),
       w') /\
    localStorage w' =
      mkLocalStorage
        (Some (Json (assign index
                 (storage.touch project
                    (Project.boreholes project ++
                       [storage.newBorehole (uuids w 0) (clock w 0) project data])
                    (clock w 0))
                 (stored w))))
        Available.
Proof.
  intros Hfind Hacc.
  destruct (getProjects_total w) as (w1 & Hread & Hls & Hclock & Hids).
  unfold storage.addBorehole, bind. rewrite Hread, Hfind.
  unfold Date_now, uuidv4. cbn [clock uuids localStorage console].
  rewrite saveProjects_available by (cbn [localStorage]; now rewrite Hls).
  rewrite Hclock, Hids. eexists. split; reflexivity.
Qed.

Lemma addBorehole_missing (w : World) (projectId : string)
    (data : BoreholeData.t) :
  find_ref (storage.hasId projectId) (stored w) = None ->
  exists w',
    storage.addBorehole projectId data w = (Returned None, w') /\
    localStorage w' = localStorage w.
Proof.
  intros Hfind.
  destruct (getProjects_total w) as (w1 & Hread & Hls & _).
  unfold storage.addBorehole, bind. rewrite Hread, Hfind.
  exists w1. now split.
Qed.

(** Whatever [addBorehole] returns is the record of its object literal. *)
Lemma addBorehole_returned (w w' : World) (projectId : string)
    (data : BoreholeData.t) (borehole : Borehole.t) :
  storage.addBorehole projectId data w = (Returned (Some borehole), w') ->
  exists project,
    find (storage.hasId projectId) (stored w) = Some project /\
    borehole = storage.newBorehole (uuids w 0) (clock w 0) project data.
Proof.
  destruct (getProjects_total w) as (w1 & Hread & Hls & Hclock & Hids).
  unfold storage.addBorehole, bind. rewrite Hread.
  rewrite find_ref_find.
  destruct (find_ref (storage.hasId projectId) (stored w)) as [[index project]|];
    [| discriminate].
  unfold Date_now, uuidv4. cbn [clock uuids localStorage console].
  match goal with
  | |- context [storage.saveProjects ?ps ?w2] =>
      destruct (storage.saveProjects ps w2) as [[[]|error] w3]
  end; [| discriminate].
  unfold ret. intros [= <- _]. exists project. rewrite Hclock, Hids.
  now split.
Qed.

(** What is read of a project after a borehole was pushed: the boreholes it
    had, as they were, and the new one as JSON gives it back. *)
Lemma boreholes_pushed (w : World) (projectId : string) (index : nat)
    (project : Project.t) (borehole : Borehole.t) (now : string) :
  find_ref (storage.hasId projectId) (stored w) = Some (index, project) ->
  roundTripProject
    (storage.touch project (Project.boreholes project ++ [borehole]) now) =
  storage.touch project
    (Project.boreholes project ++ [roundTripBorehole borehole]) now.
Proof.
  intros Hfind. unfold roundTripProject, storage.touch.
  cbn [Project.id Project.name Project.client Project.locationDescription
       Project.coordinateSystem Project.boreholes Project.createdAt
       Project.updatedAt Project.status].
  rewrite map_app. cbn [map].
  now rewrite (boreholes_exact _ (found_exact _ _ _ _ Hfind)).
Qed.

(** C3, as the code has it: [addBorehole] on a stored project, the storage
    accepting the write, returns a borehole whose code is the one
    [generateBoreholeCode] gives when no code or the empty code is supplied,
    and the supplied code, duplicate or not, when it is not empty; whose
    status is [Planned] when none is supplied; whose [groundLevel] and
    [totalDepth] are [null] when missing, [undefined] or [null]; whose notes
    are the empty string when none are supplied; and whose [createdAt] equals
    its [updatedAt]. The borehole is appended after the project's boreholes,
    which keep their order, the project's [updatedAt] is stamped, and the
    collection with that project is what is written. Read back, the project
    has its former boreholes as they were, followed by the new one as JSON
    gives it back: a number that is not finite has become [null], and [-0]
    has become [0]. When no stored project has the id, the call returns
    absent and leaves the storage as it is. *)
Theorem addBorehole_appends (w : World) (projectId : string)
    (data : BoreholeData.t) :
  (forall project,
      find (storage.hasId projectId) (stored w) = Some project ->
      access (localStorage w) = Available ->
      exists index borehole project' w',
        storage.addBorehole projectId data w = (Returned (Some borehole), w') /\
        (BoreholeData.code data = None ->
         Borehole.code borehole = generateBoreholeCode project) /\
        (BoreholeData.code data = Some "" ->
         Borehole.code borehole = generateBoreholeCode project) /\
        (forall c, BoreholeData.code data = Some c -> c <> "" ->
                   Borehole.code borehole = c) /\
        (BoreholeData.status data = None -> Borehole.status borehole = Planned) /\
        (forall st, BoreholeData.status data = Some st ->
                    Borehole.status borehole = st) /\
        (BoreholeData.groundLevel data = Undefined \/
         BoreholeData.groundLevel data = Null ->
         Borehole.groundLevel borehole = Null) /\
        (forall v, BoreholeData.groundLevel data = Num v ->
                   Borehole.groundLevel borehole = Num v) /\
        (BoreholeData.totalDepth data = Undefined \/
         BoreholeData.totalDepth data = Null ->
         Borehole.totalDepth borehole = Null) /\
        (forall v, BoreholeData.totalDepth data = Num v ->
                   Borehole.totalDepth borehole = Num v) /\
        (BoreholeData.notes data = None -> Borehole.notes borehole = Some "") /\
        (forall n, BoreholeData.notes data = Some n ->
                   Borehole.notes borehole = Some n) /\
        Borehole.name borehole = BoreholeData.name data /\
        Borehole.latitude borehole = Num (BoreholeData.latitude data) /\
        Borehole.longitude borehole = Num (BoreholeData.longitude data) /\
        Borehole.id borehole = uuids w 0 /\
        Borehole.createdAt borehole = clock w 0 /\
        Borehole.createdAt borehole = Borehole.updatedAt borehole /\
        nth_error (stored w) index = Some project /\
        Project.boreholes project' =
          (Project.boreholes project ++ [borehole])%list /\
        Project.updatedAt project' = clock w 0 /\
        Project.id project' = Project.id project /\
        Project.name project' = Project.name project /\
        Project.createdAt project' = Project.createdAt project /\
        Project.status project' = Project.status project /\
        item (localStorage w') =
          Some (JSON_stringify (assign index project' (stored w))) /\
        stored w' = assign index (roundTripProject project') (stored w) /\
        storage.getProject projectId w' =
          (Returned (Some (roundTripProject project')), w') /\
        Project.boreholes (roundTripProject project') =
          (Project.boreholes project ++ [roundTripBorehole borehole])%list /\
        Project.updatedAt (roundTripProject project') = clock w 0 /\
        (roundTripBorehole borehole = borehole ->
         roundTripProject project' = project')) /\
  ((forall p, In p (stored w) -> Project.id p <> projectId) ->
   exists w',
     storage.addBorehole projectId data w = (Returned None, w') /\
     localStorage w' = localStorage w).
Proof.
  split.
  - intros project Hfound Hacc.
    destruct (find_ref_of_find _ _ _ Hfound) as (index & Hfind).
    destruct (addBorehole_found w projectId data index project Hfind Hacc)
      as (w' & Hrun & Hls).
    destruct (find_ref_Some _ _ _ _ Hfind) as (Hnth & Hhas & _).
    exists index, (storage.newBorehole (uuids w 0) (clock w 0) project data),
      (storage.touch project
         (Project.boreholes project ++
            [storage.newBorehole (uuids w 0) (clock w 0) project data])
         (clock w 0)), w'.
    split; [exact Hrun|].
    split; [now intros Hcode; cbn; rewrite Hcode|].
    split; [now intros Hcode; cbn; rewrite Hcode|].
    split.
    { intros c Hcode Hc. cbn. rewrite Hcode. cbn [or_string].
      now destruct (String.eqb_spec c ""). }
    split; [now intros Hst; cbn; rewrite Hst|].
    split; [now intros st Hst; cbn; rewrite Hst|].
    split; [now intros [Hgl | Hgl]; cbn; rewrite Hgl|].
    split; [now intros v Hgl; cbn; rewrite Hgl|].
    split; [now intros [Htd | Htd]; cbn; rewrite Htd|].
    split; [now intros v Htd; cbn; rewrite Htd|].
    split; [now intros Hnotes; cbn; rewrite Hnotes|].
    split.
    { intros n Hnotes. cbn. rewrite Hnotes. cbn [or_string].
      destruct (String.eqb_spec n ""); congruence. }
    do 6 (split; [reflexivity|]).
    split; [exact Hnth|].
    do 6 (split; [reflexivity|]).
    split; [now rewrite Hls|].
    split; [exact (stored_assigned _ _ _ _ Hls)|].
    split; [exact (getProject_assigned _ _ _ _ _ _ Hfind Hls eq_refl)|].
    rewrite (boreholes_pushed _ _ _ _ _ _ Hfind).
    split; [reflexivity|]. split; [reflexivity|].
    now intros ->.
  - intros Hnone. apply addBorehole_missing. now apply find_hasId.
Qed.

Lemma addBorehole_appends_witness :
  exists borehole project' w',
    storage.addBorehole "p1" placedBH01 acmeWorld = (Returned (Some borehole), w') /\
    Borehole.code borehole = "BH01" /\
    Borehole.status borehole = Planned /\
    Borehole.groundLevel borehole = Null /\
    map Borehole.code (Project.boreholes acme) = ["BH01"; "BH02"] /\
    Project.boreholes project' = (Project.boreholes acme ++ [borehole])%list /\
    storage.getProject "p1" w' = (Returned (Some (roundTripProject project')), w').
Proof.
  destruct (proj1 (addBorehole_appends acmeWorld "p1" placedBH01) acme
              eq_refl eq_refl)
    as (index & borehole & project' & w' & Hrun & _ & _ & Hcode & Hstatus & _
        & Hlevel & _ & _ & _ & _ & _ & _ & _ & _ & _ & _ & _ & _ & Hpushed
        & _ & _ & _ & _ & _ & _ & _ & Hget & _).
  exists borehole, project', w'. split; [exact Hrun|].
  split; [apply Hcode; [reflexivity | discriminate]|].
  split; [apply Hstatus; reflexivity|].
  split; [apply Hlevel; left; reflexivity|].
  split; [reflexivity|]. split; [exact Hpushed | exact Hget].
Defined.

(** C3, as stated, fails: a supplied code that is the empty string is not
    kept; the borehole gets the generated code. *)
Lemma addBorehole_empty_code_not_kept :
  BoreholeData.code placedEmptyCode = Some "" /\
  find (storage.hasId "p1") (stored acmeWorld) = Some acme /\
  fst (storage.addBorehole "p1" placedEmptyCode acmeWorld) =
    Returned (Some placedThird) /\
  Borehole.code placedThird = "BH03" /\
  Borehole.code placedThird <> "".
Proof.
  repeat split; try reflexivity. discriminate.
Qed.

(** The borehole returned is the record in memory; the one read afterwards
    has been through JSON. *)
Example addBorehole_numbers_read_back :
  fst (storage.addBorehole "p1" placedOdd acmeWorld) =
    Returned (Some placedOddReturned) /\
  fst (storage.getProject "p1"
         (snd (storage.addBorehole "p1" placedOdd acmeWorld))) =
    Returned (Some (storage.touch acme
                      (Project.boreholes acme ++ [placedOddRead]) now1)) /\
  roundTripBorehole placedOddReturned = placedOddRead.
Proof. repeat split; reflexivity. Qed.

Lemma generateBoreholeCode_not_empty (project : Project.t) :
  generateBoreholeCode project <> "".
Proof. unfold generateBoreholeCode. apply bhCode_not_empty. Qed.

(** C10: [addBorehole] treats a supplied empty code as a missing one: the two
    calls are the same computation, and on a stored project, the storage
    accepting the write, the borehole returned gets the code
    [generateBoreholeCode] gives, and so does the borehole stored, which is
    the one returned as JSON gives it back. No borehole that [addBorehole]
    returns has the empty code, and one added with no status has the status
    [Planned]. *)
Theorem addBorehole_empty_code_generated :
  (forall (w : World) (projectId : string) (data : BoreholeData.t),
      storage.addBorehole projectId (BoreholeData.withCode (Some "") data) w =
      storage.addBorehole projectId (BoreholeData.withCode None data) w) /\
  (forall (w : World) (projectId : string) (data : BoreholeData.t) project,
      find (storage.hasId projectId) (stored w) = Some project ->
      access (localStorage w) = Available ->
      BoreholeData.code data = Some "" ->
      exists borehole project' w',
        storage.addBorehole projectId data w = (Returned (Some borehole), w') /\
        Borehole.code borehole = generateBoreholeCode project /\
        find (storage.hasId projectId) (stored w') = Some project' /\
        In (roundTripBorehole borehole) (Project.boreholes project') /\
        Borehole.code (roundTripBorehole borehole) =
          generateBoreholeCode project /\
        Borehole.id (roundTripBorehole borehole) = Borehole.id borehole) /\
  (forall (w w' : World) (projectId : string) (data : BoreholeData.t) borehole,
      storage.addBorehole projectId data w = (Returned (Some borehole), w') ->
      Borehole.code borehole <> "" /\
      (BoreholeData.status data = None -> Borehole.status borehole = Planned)).
Proof.
  split; [| split].
  - reflexivity.
  - intros w projectId data project Hfound Hacc Hcode.
    destruct (find_ref_of_find _ _ _ Hfound) as (index & Hfind).
    destruct (addBorehole_found w projectId data index project Hfind Hacc)
      as (w' & Hrun & Hls).
    pose proof (find_after_assign _ _ _ _ _ _ Hfind Hls eq_refl) as Hfind'.
    rewrite (boreholes_pushed _ _ _ _ _ _ Hfind) in Hfind'.
    do 3 eexists. split; [exact Hrun|].
    split; [cbn; now rewrite Hcode|].
    split; [rewrite find_ref_find, Hfind'; reflexivity|].
    split; [| split; [cbn; now rewrite Hcode | reflexivity]].
    cbn [storage.touch Project.boreholes].
    apply in_or_app. right. now left.
  - intros w w' projectId data borehole Hrun.
    destruct (addBorehole_returned _ _ _ _ _ Hrun) as (project & _ & ->).
    split.
    + cbn [storage.newBorehole Borehole.code].
      apply or_string_not_empty, generateBoreholeCode_not_empty.
    + intros Hstatus. cbn [storage.newBorehole Borehole.status].
      now rewrite Hstatus.
Qed.

Lemma addBorehole_empty_code_generated_witness :
  exists borehole w',
    storage.addBorehole "p1" placedEmptyCode acmeWorld =
      (Returned (Some borehole), w') /\
    Borehole.code borehole = "BH03" /\
    Borehole.code borehole <> "" /\
    Borehole.status borehole = Planned.
Proof.
  destruct addBorehole_empty_code_generated as (_ & Hgenerated & Hnever).
  destruct (Hgenerated acmeWorld "p1" placedEmptyCode acme
              eq_refl eq_refl eq_refl)
    as (borehole & project' & w' & Hrun & Hcode & _).
  exists borehole, w'. split; [exact Hrun|]. split; [exact Hcode|].
  destruct (Hnever _ _ _ _ _ Hrun) as (Hnonempty & Hplanned).
  split; [exact Hnonempty | apply Hplanned; reflexivity].
Defined.

(** *** [updateBorehole] *)

Lemma updateBorehole_found (w : World) (projectId boreholeId : string)
    (updates : BoreholeUpdates.t) (index boreholeIndex : nat)
    (project : Project.t) (found : Borehole.t) :
  find_ref (storage.hasId projectId) (stored w) = Some (index, project) ->
  find_ref (storage.boreholeHasId boreholeId) (Project.boreholes project) =
    Some (boreholeIndex, found) ->
  access (localStorage w) = Available ->
  exists w',
    storage.updateBorehole projectId boreholeId updates w =
      (Returned (Some (storage.mergeBorehole found updates (clock w 0))), w') /\
    localStorage w' =
      mkLocalStorage
        (Some (Json (assign index
                 (storage.touch project
                    (assign boreholeIndex
                       (storage.mergeBorehole found updates (clock w 0))
                       (Project.boreholes project))
                    (clock w 1))
                 (stored w))))
        Available.
Proof.
  intros Hfind Hborehole Hacc.
  destruct (getProjects_total w) as (w1 & Hread & Hls & Hclock & _).
  unfold storage.updateBorehole, bind. rewrite Hread, Hfind, Hborehole.
  unfold Date_now. cbn [clock localStorage uuids console].
  rewrite saveProjects_available by (cbn [localStorage]; now rewrite Hls).
  rewrite Hclock. eexists. split; reflexivity.
Qed.

Lemma updateBorehole_missing (w : World) (projectId boreholeId : string)
    (updates : BoreholeUpdates.t) :
  (forall index project,
      find_ref (storage.hasId projectId) (stored w) = Some (index, project) ->
      find_ref (storage.boreholeHasId boreholeId) (Project.boreholes project) =
        None) ->
  exists w',
    storage.updateBorehole projectId boreholeId updates w = (Returned None, w') /\
    localStorage w' = localStorage w.
Proof.
  intros Hmissing.
  destruct (getProjects_total w) as (w1 & Hread & Hls & _).
  unfold storage.updateBorehole, bind. rewrite Hread.
  destruct (find_ref (storage.hasId projectId) (stored w))
    as [[index project]|] eqn:Hfind.
  - rewrite (Hmissing index project eq_refl). exists w1. now split.
  - exists w1. now split.
Qed.

(** What is read of a project after one of its boreholes was replaced: the
    other boreholes as they were, and the replacement as JSON gives it
    back. *)
Lemma boreholes_replaced (w : World) (projectId : string) (index : nat)
    (project : Project.t) (boreholeIndex : nat) (b : Borehole.t)
    (now : string) :
  find_ref (storage.hasId projectId) (stored w) = Some (index, project) ->
  roundTripProject
    (storage.touch project
       (assign boreholeIndex b (Project.boreholes project)) now) =
  storage.touch project
    (assign boreholeIndex (roundTripBorehole b) (Project.boreholes project))
    now.
Proof.
  intros Hfind. unfold roundTripProject, storage.touch.
  cbn [Project.id Project.name Project.client Project.locationDescription
       Project.coordinateSystem Project.boreholes Project.createdAt
       Project.updatedAt Project.status].
  now rewrite map_assign, (boreholes_exact _ (found_exact _ _ _ _ Hfind)).
Qed.

(** A change of status writes no number that was not read. *)
Lemma mergeBorehole_status_exact (found : Borehole.t) (st : BoreholeStatus)
    (now : string) :
  roundTripBorehole found = found ->
  roundTripBorehole
    (storage.mergeBorehole found (BoreholeUpdates.onlyStatus st) now) =
  storage.mergeBorehole found (BoreholeUpdates.onlyStatus st) now.
Proof.
  intros Hexact.
  pose proof (f_equal Borehole.latitude Hexact) as Hlat.
  pose proof (f_equal Borehole.longitude Hexact) as Hlong.
  pose proof (f_equal Borehole.groundLevel Hexact) as Hlevel.
  pose proof (f_equal Borehole.totalDepth Hexact) as Hdepth.
  cbn in Hlat, Hlong, Hlevel, Hdepth.
  unfold roundTripBorehole, storage.mergeBorehole. cbn.
  now rewrite Hlat, Hlong, Hlevel, Hdepth.
Qed.

(** C5, as the code has it: [updateBorehole] with [{ status: st }] on a
    stored borehole, the storage accepting the write, returns the borehole
    with that status and with [updatedAt] set to the clock's reading, all its
    other fields as they were; the record takes the former one's place among
    the project's boreholes, the project's [updatedAt] is stamped with the
    clock's next reading, and the collection is persisted. The new
    [updatedAt] is strictly later than the former one exactly when the
    clock's reading is. *)
Theorem updateBorehole_status_only (w : World) (projectId boreholeId : string)
    (st : BoreholeStatus) (project : Project.t) (found : Borehole.t) :
  find (storage.hasId projectId) (stored w) = Some project ->
  find (storage.boreholeHasId boreholeId) (Project.boreholes project) =
    Some found ->
  access (localStorage w) = Available ->
  exists boreholeIndex updated project' w',
    storage.updateBorehole projectId boreholeId (BoreholeUpdates.onlyStatus st) w =
      (Returned (Some updated), w') /\
    Borehole.status updated = st /\
    Borehole.id updated = Borehole.id found /\
    Borehole.code updated = Borehole.code found /\
    Borehole.name updated = Borehole.name found /\
    Borehole.latitude updated = Borehole.latitude found /\
    Borehole.longitude updated = Borehole.longitude found /\
    Borehole.groundLevel updated = Borehole.groundLevel found /\
    Borehole.totalDepth updated = Borehole.totalDepth found /\
    Borehole.notes updated = Borehole.notes found /\
    Borehole.createdAt updated = Borehole.createdAt found /\
    Borehole.updatedAt updated = clock w 0 /\
    strictlyLater (Borehole.updatedAt found) (Borehole.updatedAt updated) =
      strictlyLater (Borehole.updatedAt found) (clock w 0) /\
    storage.getProject projectId w' = (Returned (Some project'), w') /\
    nth_error (Project.boreholes project) boreholeIndex = Some found /\
    Project.boreholes project' =
      assign boreholeIndex updated (Project.boreholes project) /\
    nth_error (Project.boreholes project') boreholeIndex = Some updated /\
    Project.updatedAt project' = clock w 1 /\
    Project.id project' = Project.id project /\
    Project.createdAt project' = Project.createdAt project.
Proof.
  intros Hproject Hfound Hacc.
  destruct (find_ref_of_find _ _ _ Hproject) as (index & Hfind).
  destruct (find_ref_of_find _ _ _ Hfound) as (boreholeIndex & Hborehole).
  destruct (updateBorehole_found w projectId boreholeId
              (BoreholeUpdates.onlyStatus st) index boreholeIndex project found
              Hfind Hborehole Hacc) as (w' & Hrun & Hls).
  destruct (find_ref_Some _ _ _ _ Hfind) as (_ & Hhas & _).
  destruct (find_ref_Some _ _ _ _ Hborehole) as (Hnth & _ & _).
  exists boreholeIndex,
    (storage.mergeBorehole found (BoreholeUpdates.onlyStatus st) (clock w 0)).
  eexists. exists w'. split; [exact Hrun|].
  do 12 (split; [reflexivity|]).
  split.
  { rewrite (getProject_assigned _ _ _ _ _ _ Hfind Hls eq_refl).
    rewrite (boreholes_replaced _ _ _ _ _ _ _ Hfind).
    rewrite mergeBorehole_status_exact; [reflexivity|].
    apply (borehole_exact project); [exact (found_exact _ _ _ _ Hfind)|].
    now apply (nth_error_In _ boreholeIndex). }
  split; [exact Hnth|].
  split; [reflexivity|].
  split; [apply (nth_error_assign _ _ _ _ Hnth)|].
  repeat split.
Qed.

Lemma updateBorehole_status_only_witness :
  exists updated w',
    storage.updateBorehole "p1" "id-BH02"
      (BoreholeUpdates.onlyStatus Completed) acmeWorld =
      (Returned (Some updated), w') /\
    Borehole.status updated = Completed /\
    Borehole.code updated = "BH02" /\
    Borehole.updatedAt updated = now1 /\
    strictlyLater now0 (Borehole.updatedAt updated) = true.
Proof.
  destruct (updateBorehole_status_only acmeWorld "p1" "id-BH02" Completed
              acme (boreholeWithCode "BH02") eq_refl eq_refl eq_refl)
    as (boreholeIndex & updated & project' & w' & Hrun & Hstatus & _ & Hcode
        & _ & _ & _ & _ & _ & _ & _ & Hstamp & _).
  exists updated, w'. split; [exact Hrun|]. split; [exact Hstatus|].
  split; [exact Hcode|]. split; [exact Hstamp|].
  rewrite Hstamp. reflexivity.
Defined.

(** C5, as stated, fails: a borehole added and then updated within one
    millisecond keeps its [updatedAt]; the new value is not strictly greater
    than the former one. *)
Lemma updateBorehole_same_millisecond :
  fst (storage.addBorehole "p1" placed oneMillisecond) =
    Returned (Some placedFirst) /\
  fst (storage.updateBorehole "p1" (Borehole.id placedFirst)
         (BoreholeUpdates.onlyStatus Completed)
         (snd (storage.addBorehole "p1" placed oneMillisecond))) =
    Returned (Some completedFirst) /\
  Borehole.updatedAt completedFirst = Borehole.updatedAt placedFirst /\
  strictlyLater (Borehole.updatedAt placedFirst)
                (Borehole.updatedAt completedFirst) = false.
Proof.
  repeat split; reflexivity.
Qed.

(** *** [deleteBorehole] *)

Lemma otherId_true (boreholeId : string) (b : Borehole.t) :
  storage.otherId boreholeId b = true <-> Borehole.id b <> boreholeId.
Proof.
  unfold storage.otherId, storage.boreholeHasId.
  rewrite negb_true_iff. apply String.eqb_neq.
Qed.

Lemma deleteBorehole_run (w : World) (projectId boreholeId : string) :
  exists w1,
    localStorage w1 = localStorage w /\ clock w1 = clock w /\
    storage.deleteBorehole projectId boreholeId w =
      match find_ref (storage.hasId projectId) (stored w) with
      | None => (Returned false, w1)
      | Some (index, project) =>
          let remaining :=
            filter (storage.otherId boreholeId) (Project.boreholes project) in
          if Nat.eqb (length remaining) (length (Project.boreholes project))
          then (Returned false, w1)
          else
            bind (storage.saveProjects
                    (assign index
                       (storage.touch project remaining (clock w 0))
                       (stored w)))
                 (fun _ => ret true)
                 (mkWorld (localStorage w1) (fun n => clock w (S n))
                          (uuids w1) (console w1))
      end.
Proof.
  destruct (getProjects_total w) as (w1 & Hread & Hls & Hclock & _).
  exists w1. split; [exact Hls|]. split; [exact Hclock|].
  unfold storage.deleteBorehole. unfold bind at 1. rewrite Hread.
  destruct (find_ref (storage.hasId projectId) (stored w))
    as [[index project]|]; [| reflexivity].
  cbv zeta. fold (storage.otherId boreholeId).
  change (fun b : Borehole.t => negb (storage.boreholeHasId boreholeId b))
    with (storage.otherId boreholeId).
  destruct (Nat.eqb _ _); [reflexivity|].
  unfold bind at 1, Date_now. now rewrite Hclock.
Qed.

(** What is read of a project after some of its boreholes were dropped:
    the boreholes kept, as they were. *)
Lemma boreholes_filtered (w : World) (projectId : string) (index : nat)
    (project : Project.t) (pred : Borehole.t -> bool) (now : string) :
  find_ref (storage.hasId projectId) (stored w) = Some (index, project) ->
  roundTripProject
    (storage.touch project (filter pred (Project.boreholes project)) now) =
  storage.touch project (filter pred (Project.boreholes project)) now.
Proof.
  intros Hfind. unfold roundTripProject, storage.touch.
  cbn [Project.id Project.name Project.client Project.locationDescription
       Project.coordinateSystem Project.boreholes Project.createdAt
       Project.updatedAt Project.status].
  now rewrite (map_filter_fixed _ _ _
                 (boreholes_exact _ (found_exact _ _ _ _ Hfind))).
Qed.

(** C6: when the project found for [projectId] has no borehole with
    [boreholeId], or no project is found, [deleteBorehole] returns [false];
    the storage is what it was, nothing was written and the clock was not
    read. When the project found has such a borehole, and the storage accepts
    the write, [deleteBorehole] returns [true]; the project persisted in its
    place has the other boreholes, in their order, and the clock's reading as
    [updatedAt]. In that case it returns nothing but [true], and only when
    the storage accepts the write. *)
Theorem deleteBorehole_removes (w : World) (projectId boreholeId : string) :
  ((forall project b,
       find (storage.hasId projectId) (stored w) = Some project ->
       In b (Project.boreholes project) -> Borehole.id b <> boreholeId) ->
   exists w',
     storage.deleteBorehole projectId boreholeId w = (Returned false, w') /\
     localStorage w' = localStorage w /\
     clock w' = clock w) /\
  (forall project b,
      find (storage.hasId projectId) (stored w) = Some project ->
      In b (Project.boreholes project) -> Borehole.id b = boreholeId ->
      access (localStorage w) = Available ->
      exists index project' w',
        storage.deleteBorehole projectId boreholeId w = (Returned true, w') /\
        nth_error (stored w) index = Some project /\
        stored w' = assign index project' (stored w) /\
        storage.getProject projectId w' = (Returned (Some project'), w') /\
        Project.boreholes project' =
          filter (storage.otherId boreholeId) (Project.boreholes project) /\
        (forall b', In b' (Project.boreholes project') <->
                    In b' (Project.boreholes project) /\
                    Borehole.id b' <> boreholeId) /\
        Project.updatedAt project' = clock w 0 /\
        Project.id project' = Project.id project /\
        Project.name project' = Project.name project /\
        Project.createdAt project' = Project.createdAt project /\
        Project.status project' = Project.status project) /\
  (forall project b removed w',
      find (storage.hasId projectId) (stored w) = Some project ->
      In b (Project.boreholes project) -> Borehole.id b = boreholeId ->
      storage.deleteBorehole projectId boreholeId w = (Returned removed, w') ->
      removed = true /\ access (localStorage w) = Available).
Proof.
  destruct (deleteBorehole_run w projectId boreholeId)
    as (w1 & Hls & Hclock & Hrun).
  split; [| split].
  - intros Hnone. exists w1. split; [| now split]. rewrite Hrun.
    destruct (find_ref (storage.hasId projectId) (stored w))
      as [[index project]|] eqn:Hfind; [| reflexivity].
    cbv zeta.
    assert (Hfound : find (storage.hasId projectId) (stored w) = Some project)
      by (rewrite find_ref_find, Hfind; reflexivity).
    assert (Hsame : length (filter (storage.otherId boreholeId)
                              (Project.boreholes project)) =
                    length (Project.boreholes project)).
    { apply filter_length_same. intros b Hb. apply otherId_true.
      now apply (Hnone project b). }
    rewrite Hsame, Nat.eqb_refl. reflexivity.
  - intros project b Hfound Hb Hid Hacc.
    destruct (find_ref_of_find _ _ _ Hfound) as (index & Hfind).
    destruct (find_ref_Some _ _ _ _ Hfind) as (Hnth & Hhas & _).
    rewrite Hfind in Hrun. cbv zeta in Hrun.
    assert (Hless : Nat.eqb
                      (length (filter (storage.otherId boreholeId)
                                 (Project.boreholes project)))
                      (length (Project.boreholes project)) = false).
    { apply Nat.eqb_neq. intros Hsame.
      pose proof (proj1 (filter_length_same _ _) Hsame b Hb) as Hother.
      apply otherId_true in Hother. contradiction. }
    rewrite Hless in Hrun. unfold bind in Hrun.
    rewrite saveProjects_available in Hrun
      by (cbn [localStorage]; now rewrite Hls).
    unfold ret in Hrun.
    match type of Hrun with _ = (_, ?w2) => set (w' := w2) in * end.
    assert (Hls' : localStorage w' =
                   mkLocalStorage
                     (Some (Json (assign index
                        (storage.touch project
                           (filter (storage.otherId boreholeId)
                              (Project.boreholes project)) (clock w 0))
                        (stored w)))) Available) by reflexivity.
    exists index. eexists. exists w'. split; [exact Hrun|].
    split; [exact Hnth|].
    split.
    { rewrite (stored_assigned _ _ _ _ Hls').
      now rewrite (boreholes_filtered _ _ _ _ _ _ Hfind). }
    split.
    { rewrite (getProject_assigned _ _ _ _ _ _ Hfind Hls' eq_refl).
      now rewrite (boreholes_filtered _ _ _ _ _ _ Hfind). }
    split; [reflexivity|].
    split.
    { intros b'. cbn [storage.touch Project.boreholes].
      rewrite filter_In, otherId_true. reflexivity. }
    repeat split.
  - intros project b removed w' Hfound Hb Hid Hreturned.
    destruct (find_ref_of_find _ _ _ Hfound) as (index & Hfind).
    rewrite Hfind in Hrun. cbv zeta in Hrun.
    assert (Hless : Nat.eqb
                      (length (filter (storage.otherId boreholeId)
                                 (Project.boreholes project)))
                      (length (Project.boreholes project)) = false).
    { apply Nat.eqb_neq. intros Hsame.
      pose proof (proj1 (filter_length_same _ _) Hsame b Hb) as Hother.
      apply otherId_true in Hother. contradiction. }
    rewrite Hless in Hrun. unfold bind in Hrun. rewrite Hrun in Hreturned.
    match type of Hreturned with
    | context [storage.saveProjects ?ps ?w2] =>
        destruct (storage.saveProjects ps w2) as [[u|error] w3] eqn:Hsave
    end; [| discriminate].
    injection Hreturned as <- _. split; [reflexivity|].
    apply saveProjects_returned in Hsave. cbn [localStorage] in Hsave.
    now rewrite Hls in Hsave.
Qed.

Lemma deleteBorehole_removes_witness :
  exists project' w',
    storage.deleteBorehole "p1" "id-BH01" acmeWorld = (Returned true, w') /\
    storage.getProject "p1" w' = (Returned (Some project'), w') /\
    map Borehole.code (Project.boreholes project') = ["BH02"] /\
    Project.updatedAt project' = now1.
Proof.
  destruct (proj1 (proj2 (deleteBorehole_removes acmeWorld "p1" "id-BH01"))
              acme (boreholeWithCode "BH01") eq_refl
              (or_introl eq_refl) eq_refl eq_refl)
    as (index & project' & w' & Hrun & _ & _ & Hget & Hrest & _ & Hstamp & _).
  exists project', w'. split; [exact Hrun|]. split; [exact Hget|].
  split; [rewrite Hrest; reflexivity | exact Hstamp].
Defined.

(** *** The Facade's selection *)

(** Whatever the Store's [updateBorehole] returns is the found record merged
    with the argument, and it has been written in the found one's place. *)
Lemma updateBorehole_returned (w w' : World) (projectId boreholeId : string)
    (updates : BoreholeUpdates.t) (updated : Borehole.t) :
  storage.updateBorehole projectId boreholeId updates w =
    (Returned (Some updated), w') ->
  exists index project boreholeIndex found,
    find_ref (storage.hasId projectId) (stored w) = Some (index, project) /\
    find_ref (storage.boreholeHasId boreholeId) (Project.boreholes project) =
      Some (boreholeIndex, found) /\
    updated = storage.mergeBorehole found updates (clock w 0) /\
    localStorage w' =
      mkLocalStorage
        (Some (Json (assign index
                 (storage.touch project
                    (assign boreholeIndex updated (Project.boreholes project))
                    (clock w 1))
                 (stored w))))
        Available.
Proof.
  destruct (getProjects_total w) as (w1 & Hread & Hls & Hclock & _).
  unfold storage.updateBorehole, bind. rewrite Hread.
  destruct (find_ref (storage.hasId projectId) (stored w))
    as [[index project]|] eqn:Hfind; [| discriminate].
  destruct (find_ref (storage.boreholeHasId boreholeId)
              (Project.boreholes project))
    as [[boreholeIndex found]|] eqn:Hborehole; [| discriminate].
  unfold Date_now. cbn [clock localStorage uuids console].
  unfold storage.saveProjects, try_catch, localStorage_setItem, bind,
    console_error, throw, ret.
  cbn [localStorage]. rewrite Hls, Hclock.
  destruct (access (localStorage w)); [| discriminate | discriminate].
  intros [= <- <-]. exists index, project, boreholeIndex, found.
  repeat split; assumption.
Qed.

Lemma loadProject_run (projectId : string) (s : useProjects.State) (w : World) :
  exists w',
    useProjects.loadProject projectId s w =
      (useProjects.mkState (useProjects.projects s)
         (find (storage.hasId projectId) (stored w)) None false None, w') /\
    localStorage w' = localStorage w.
Proof.
  destruct (getProjects_total w) as (w1 & Hread & Hls & _).
  unfold useProjects.loadProject, storage.getProject, bind. rewrite Hread.
  exists w1. split; [reflexivity | exact Hls].
Qed.

(** C8, as the code has it: when a project is current and the Store's
    [updateBorehole] returned the merged record, the Facade's
    [updateBorehole] of the selected borehole's id leaves that record
    selected: the found record merged with the argument and stamped with the
    clock's reading. The reloaded current project holds, under the same id,
    that record as JSON gives it back. When a project is current and the
    Store's [deleteBorehole] returned, the Facade's [deleteBorehole] of the
    selected borehole's id leaves nothing selected. *)
Theorem facade_selection_refreshed (s : useProjects.State) (w : World)
    (boreholeId : string) (current : Project.t) (selected : Borehole.t) :
  useProjects.currentProject s = Some current ->
  useProjects.selectedBorehole s = Some selected ->
  Borehole.id selected = boreholeId ->
  (forall updates updated w1,
      storage.updateBorehole (Project.id current) boreholeId updates w =
        (Returned (Some updated), w1) ->
      let s' := fst (useProjects.updateBorehole boreholeId updates s w) in
      useProjects.selectedBorehole s' = Some updated /\
      Borehole.updatedAt updated = clock w 0 /\
      exists found reloaded,
        find (storage.hasId (Project.id current)) (stored w) <> None /\
        updated = storage.mergeBorehole found updates (clock w 0) /\
        useProjects.currentProject s' = Some reloaded /\
        In (roundTripBorehole updated) (Project.boreholes reloaded) /\
        Borehole.id (roundTripBorehole updated) = Borehole.id updated /\
        useProjects.error s' = None) /\
  (forall removed w1,
      storage.deleteBorehole (Project.id current) boreholeId w =
        (Returned removed, w1) ->
      useProjects.selectedBorehole
        (fst (useProjects.deleteBorehole boreholeId s w)) = None).
Proof.
  intros Hcurrent Hselected Hid. split.
  - intros updates updated w1 Hrun. cbv zeta.
    destruct (updateBorehole_returned _ _ _ _ _ _ Hrun)
      as (index & project & boreholeIndex & found & Hfind & Hborehole
          & Hmerged & Hls).
    destruct (find_ref_Some _ _ _ _ Hfind) as (_ & Hhas & _).
    destruct (find_ref_Some _ _ _ _ Hborehole) as (Hnth & _ & _).
    destruct (loadProject_run (Project.id current) s w1) as (w2 & Hload & _).
    unfold useProjects.updateBorehole. rewrite Hcurrent, Hrun, Hload.
    unfold useProjects.isSelected. rewrite Hselected, Hid, String.eqb_refl.
    cbn [fst useProjects.setSelectedBorehole useProjects.selectedBorehole
         useProjects.currentProject useProjects.error].
    split; [reflexivity|]. split; [now rewrite Hmerged|].
    exists found. eexists. split.
    { rewrite find_ref_find, Hfind. discriminate. }
    split; [exact Hmerged|]. split.
    { rewrite find_ref_find, (find_after_assign _ _ _ _ _ _ Hfind Hls eq_refl).
      rewrite (boreholes_replaced _ _ _ _ _ _ _ Hfind). reflexivity. }
    split; [| split; reflexivity].
    cbn [storage.touch Project.boreholes].
    apply (nth_error_In _ boreholeIndex).
    now apply (nth_error_assign _ _ _ _ Hnth).
  - intros removed w1 Hrun.
    destruct (loadProject_run (Project.id current) s w1) as (w2 & Hload & _).
    unfold useProjects.deleteBorehole. rewrite Hcurrent, Hrun, Hload.
    unfold useProjects.isSelected. rewrite Hselected, Hid, String.eqb_refl.
    reflexivity.
Qed.

Lemma facade_selection_refreshed_witness :
  useProjects.selectedBorehole
    (fst (useProjects.updateBorehole "id-BH01"
            (BoreholeUpdates.onlyStatus Completed)
            (fst selecting) (snd selecting))) =
    Some (storage.mergeBorehole bh01 (BoreholeUpdates.onlyStatus Completed) now1) /\
  useProjects.selectedBorehole
    (fst (useProjects.deleteBorehole "id-BH01" (fst selecting) (snd selecting))) =
    None.
Proof.
  destruct (facade_selection_refreshed (fst selecting) (snd selecting)
              "id-BH01" acme bh01 eq_refl eq_refl eq_refl)
    as (Hupdate & Hdelete).
  split.
  - exact (proj1 (Hupdate (BoreholeUpdates.onlyStatus Completed) _ _ eq_refl)).
  - exact (Hdelete _ _ eq_refl).
Defined.

(** C8, as stated, fails: with no current project the Facade's
    [deleteBorehole] returns at once. After the current project was deleted,
    the borehole selected in it is still selected, and stays selected after
    [deleteBorehole] of its id. *)
Lemma deleteBorehole_without_project_keeps_selection :
  useProjects.currentProject (fst orphaned) = None /\
  useProjects.selectedBorehole (fst orphaned) = Some bh01 /\
  Borehole.id bh01 = "id-BH01" /\
  useProjects.selectedBorehole
    (fst (useProjects.deleteBorehole "id-BH01" (fst orphaned) (snd orphaned))) =
    Some bh01.
Proof.
  repeat split; reflexivity.
Qed.

(** ** More of the Store

    What follows covers the Store's other operations and how its operations
    compose. Every operation that writes has the same shape: it reads the
    collection, finds its target, and ends in [saveProjects] followed by a
    [return]. *)

Lemma save_then_ret {A : Type} (projects : list Project.t) (r : A) (w : World) :
  (storage.saveProjects projects ;;; ret r) w =
    match access (localStorage w) with
    | Available =>
        (Returned r,
         mkWorld (mkLocalStorage (Some (Json projects)) Available)
                 (clock w) (uuids w) (console w))
    | Full | Denied =>
        (Thrown "Failed to save data",
         mkWorld (localStorage w) (clock w) (uuids w)
                 ("Failed to save projects:" :: console w))
    end.
Proof.
  unfold bind, storage.saveProjects, try_catch, localStorage_setItem,
    JSON_stringify, console_error, throw, ret.
  now destruct (access (localStorage w)).
Qed.

(** The two ways such an ending can go. *)
Lemma save_then_ret_cases {A : Type} (projects : list Project.t) (r : A)
    (w : World) (o : Outcome A) (w' : World) :
  (storage.saveProjects projects ;;; ret r) w = (o, w') ->
  (access (localStorage w) = Available /\ o = Returned r /\
   localStorage w' = mkLocalStorage (Some (Json projects)) Available) \/
  (access (localStorage w) <> Available /\ o = Thrown "Failed to save data" /\
   localStorage w' = localStorage w /\
   console w' = "Failed to save projects:" :: console w).
Proof.
  rewrite save_then_ret.
  destruct (access (localStorage w)) eqn:Hacc; intros [= <- <-];
    [left | right | right]; repeat split; discriminate.
Qed.

Lemma createProject_run (w : World) (data : ProjectData.t) :
  exists w1,
    localStorage w1 = localStorage w /\
    storage.createProject data w =
      (storage.saveProjects
         (storage.newProject (uuids w 0) (clock w 0) data :: stored w) ;;;
       ret (storage.newProject (uuids w 0) (clock w 0) data)) w1.
Proof.
  unfold storage.createProject. unfold bind at 1 2 3, Date_now, uuidv4.
  cbn [clock uuids localStorage console].
  set (w0 := mkWorld (localStorage w) (fun n => clock w (S n))
                     (fun n => uuids w (S n)) (console w)).
  destruct (getProjects_total w0) as (w1 & Hread & Hls & _).
  assert (Hsame : stored w0 = stored w) by now apply stored_ext.
  rewrite Hread, Hsame. exists w1. split; [exact Hls | reflexivity].
Qed.

Lemma updateProject_run (w : World) (projectId : string)
    (updates : ProjectUpdates.t) :
  exists w1 w2,
    localStorage w1 = localStorage w /\ localStorage w2 = localStorage w /\
    storage.updateProject projectId updates w =
      match find_ref (storage.hasId projectId) (stored w) with
      | None => (Returned None, w1)
      | Some (index, found) =>
          (storage.saveProjects
             (assign index (storage.mergeProject found updates (clock w 0))
                     (stored w)) ;;;
           ret (Some (storage.mergeProject found updates (clock w 0)))) w2
      end.
Proof.
  destruct (getProjects_total w) as (w1 & Hread & Hls & Hclock & _).
  exists w1, (mkWorld (localStorage w1) (fun n => clock w1 (S n))
                      (uuids w1) (console w1)).
  split; [exact Hls|]. split; [exact Hls|].
  unfold storage.updateProject. unfold bind at 1. rewrite Hread.
  destruct (find_ref (storage.hasId projectId) (stored w))
    as [[index found]|]; [| reflexivity].
  unfold bind at 1, Date_now. now rewrite Hclock.
Qed.

Lemma deleteProject_run (w : World) (projectId : string) :
  exists w1,
    localStorage w1 = localStorage w /\ clock w1 = clock w /\
    uuids w1 = uuids w /\
    storage.deleteProject projectId w =
      let filtered :=
        filter (fun p => negb (storage.hasId projectId p)) (stored w) in
      if Nat.eqb (length filtered) (length (stored w))
      then (Returned false, w1)
      else (storage.saveProjects filtered ;;; ret true) w1.
Proof.
  destruct (getProjects_total w) as (w1 & Hread & Hls & Hclock & Hids).
  exists w1. repeat (split; [assumption|]).
  unfold storage.deleteProject. unfold bind at 1. rewrite Hread. cbv zeta.
  now destruct (Nat.eqb _ _).
Qed.

Lemma addBorehole_run (w : World) (projectId : string) (data : BoreholeData.t) :
  exists w1 w2,
    localStorage w1 = localStorage w /\ localStorage w2 = localStorage w /\
    storage.addBorehole projectId data w =
      match find_ref (storage.hasId projectId) (stored w) with
      | None => (Returned None, w1)
      | Some (index, project) =>
          let borehole :=
            storage.newBorehole (uuids w 0) (clock w 0) project data in
          (storage.saveProjects
             (assign index
                (storage.touch project
                   (Project.boreholes project ++ [borehole]) (clock w 0))
                (stored w)) ;;;
           ret (Some borehole)) w2
      end.
Proof.
  destruct (getProjects_total w) as (w1 & Hread & Hls & Hclock & Hids).
  exists w1, (mkWorld (localStorage w1) (fun n => clock w1 (S n))
                      (fun n => uuids w1 (S n)) (console w1)).
  split; [exact Hls|]. split; [exact Hls|].
  unfold storage.addBorehole. unfold bind at 1. rewrite Hread.
  destruct (find_ref (storage.hasId projectId) (stored w))
    as [[index project]|]; [| reflexivity].
  unfold bind at 1 2, Date_now, uuidv4. cbn [clock uuids localStorage console].
  now rewrite Hclock, Hids.
Qed.

Lemma updateBorehole_run (w : World) (projectId boreholeId : string)
    (updates : BoreholeUpdates.t) :
  exists w1 w2,
    localStorage w1 = localStorage w /\ localStorage w2 = localStorage w /\
    storage.updateBorehole projectId boreholeId updates w =
      match find_ref (storage.hasId projectId) (stored w) with
      | None => (Returned None, w1)
      | Some (index, project) =>
          match find_ref (storage.boreholeHasId boreholeId)
                         (Project.boreholes project) with
          | None => (Returned None, w1)
          | Some (boreholeIndex, found) =>
              let merged := storage.mergeBorehole found updates (clock w 0) in
              (storage.saveProjects
                 (assign index
                    (storage.touch project
                       (assign boreholeIndex merged (Project.boreholes project))
                       (clock w 1))
                    (stored w)) ;;;
               ret (Some merged)) w2
          end
      end.
Proof.
  destruct (getProjects_total w) as (w1 & Hread & Hls & Hclock & _).
  exists w1, (mkWorld (localStorage w1) (fun n => clock w1 (S (S n)))
                      (uuids w1) (console w1)).
  split; [exact Hls|]. split; [exact Hls|].
  unfold storage.updateBorehole. unfold bind at 1. rewrite Hread.
  destruct (find_ref (storage.hasId projectId) (stored w))
    as [[index project]|]; [| reflexivity].
  destruct (find_ref (storage.boreholeHasId boreholeId)
              (Project.boreholes project))
    as [[boreholeIndex found]|]; [| reflexivity].
  unfold bind at 1 2, Date_now. cbn [clock uuids localStorage console].
  now rewrite Hclock.
Qed.

Lemma deleteBorehole_run' (w : World) (projectId boreholeId : string) :
  exists w1 w2,
    localStorage w1 = localStorage w /\ localStorage w2 = localStorage w /\
    storage.deleteBorehole projectId boreholeId w =
      match find_ref (storage.hasId projectId) (stored w) with
      | None => (Returned false, w1)
      | Some (index, project) =>
          let remaining :=
            filter (storage.otherId boreholeId) (Project.boreholes project) in
          if Nat.eqb (length remaining) (length (Project.boreholes project))
          then (Returned false, w1)
          else
            (storage.saveProjects
               (assign index (storage.touch project remaining (clock w 0))
                       (stored w)) ;;;
             ret true) w2
      end.
Proof.
  destruct (deleteBorehole_run w projectId boreholeId)
    as (w1 & Hls & Hclock & Hrun).
  exists w1, (mkWorld (localStorage w1) (fun n => clock w (S n))
                      (uuids w1) (console w1)).
  split; [exact Hls|]. split; [exact Hls|]. exact Hrun.
Qed.

Lemma hasId_true (projectId : string) (p : Project.t) :
  storage.hasId projectId p = true <-> Project.id p = projectId.
Proof. unfold storage.hasId. apply String.eqb_eq. Qed.

Lemma boreholeHasId_true (boreholeId : string) (b : Borehole.t) :
  storage.boreholeHasId boreholeId b = true <-> Borehole.id b = boreholeId.
Proof. unfold storage.boreholeHasId. apply String.eqb_eq. Qed.

Lemma map_assign_same {A B : Type} (f : A -> B) (array : list A) (index : nat)
    (x y : A) :
  nth_error array index = Some x -> f y = f x ->
  map f (assign index y array) = map f array.
Proof.
  revert index. induction array as [|a rest IH]; intros [|i]; cbn;
    try discriminate.
  - intros [= ->] ->. reflexivity.
  - intros Hnth Hf. f_equal. now apply IH.
Qed.

Lemma filter_twice {A : Type} (pred : A -> bool) (array : list A) :
  filter pred (filter pred array) = filter pred array.
Proof.
  induction array as [|a rest IH]; cbn; [reflexivity|].
  destruct (pred a) eqn:Ha; cbn; [rewrite Ha; now f_equal | exact IH].
Qed.

Lemma filter_all {A : Type} (pred : A -> bool) (array : list A) :
  (forall x, In x array -> pred x = true) -> filter pred array = array.
Proof.
  induction array as [|a rest IH]; cbn; [reflexivity|]. intros Hall.
  rewrite (Hall a (or_introl eq_refl)). f_equal. apply IH.
  intros x Hx. apply Hall. now right.
Qed.

(** *** A refused write *)

Lemma save_thrown {A : Type} (w w2 w' : World) (projects : list Project.t)
    (r : A) (error : string) :
  localStorage w2 = localStorage w ->
  (storage.saveProjects projects ;;; ret r) w2 = (Thrown error, w') ->
  failedWrite w error w'.
Proof.
  intros Hls Hrun.
  destruct (save_then_ret_cases _ _ _ _ _ Hrun)
    as [(_ & Hbad & _) | (Hacc & [= ->] & Hls' & Hlog)]; [discriminate|].
  unfold failedWrite. rewrite <- Hls. rewrite Hlog. repeat split; assumption.
Qed.

Lemma createProject_thrown (w w' : World) (error : string) data :
  storage.createProject data w = (Thrown error, w') -> failedWrite w error w'.
Proof.
  destruct (createProject_run w data) as (w1 & Hls & ->).
  now apply save_thrown.
Qed.

Lemma updateProject_thrown (w w' : World) (error : string) projectId updates :
  storage.updateProject projectId updates w = (Thrown error, w') ->
  failedWrite w error w'.
Proof.
  destruct (updateProject_run w projectId updates) as (w1 & w2 & _ & Hls & ->).
  destruct (find_ref _ _) as [[index found]|];
    [now apply save_thrown | discriminate].
Qed.

Lemma deleteProject_thrown (w w' : World) (error : string) projectId :
  storage.deleteProject projectId w = (Thrown error, w') ->
  failedWrite w error w'.
Proof.
  destruct (deleteProject_run w projectId) as (w1 & Hls & _ & _ & ->).
  cbv zeta. destruct (Nat.eqb _ _); [discriminate | now apply save_thrown].
Qed.

Lemma addBorehole_thrown (w w' : World) (error : string) projectId data :
  storage.addBorehole projectId data w = (Thrown error, w') ->
  failedWrite w error w'.
Proof.
  destruct (addBorehole_run w projectId data) as (w1 & w2 & _ & Hls & ->).
  destruct (find_ref _ _) as [[index project]|];
    [now apply save_thrown | discriminate].
Qed.

Lemma updateBorehole_thrown (w w' : World) (error : string) projectId
    boreholeId updates :
  storage.updateBorehole projectId boreholeId updates w = (Thrown error, w') ->
  failedWrite w error w'.
Proof.
  destruct (updateBorehole_run w projectId boreholeId updates)
    as (w1 & w2 & _ & Hls & ->).
  destruct (find_ref _ _) as [[index project]|]; [| discriminate].
  destruct (find_ref _ _) as [[boreholeIndex found]|];
    [now apply save_thrown | discriminate].
Qed.

Lemma deleteBorehole_thrown (w w' : World) (error : string) projectId
    boreholeId :
  storage.deleteBorehole projectId boreholeId w = (Thrown error, w') ->
  failedWrite w error w'.
Proof.
  destruct (deleteBorehole_run' w projectId boreholeId)
    as (w1 & w2 & _ & Hls & ->).
  destruct (find_ref _ _) as [[index project]|]; [| discriminate].
  cbv zeta. destruct (Nat.eqb _ _); [discriminate | now apply save_thrown].
Qed.

(** X1: on a storage that holds nothing, a text that does not parse, or
    the serialization of an array of projects, an operation of the Store
    throws only the error of [saveProjects], because the storage refused the
    write; the storage then holds what it held before the call, and the
    refusal is on the console. (A text that parses to another value is not
    a text of a [World]: on such a value an operation can fail before it
    writes.) *)
Theorem mutators_fail_atomically (w w' : World) (error : string) :
  (forall data,
      storage.createProject data w = (Thrown error, w') ->
      failedWrite w error w') /\
  (forall projectId updates,
      storage.updateProject projectId updates w = (Thrown error, w') ->
      failedWrite w error w') /\
  (forall projectId,
      storage.deleteProject projectId w = (Thrown error, w') ->
      failedWrite w error w') /\
  (forall projectId data,
      storage.addBorehole projectId data w = (Thrown error, w') ->
      failedWrite w error w') /\
  (forall projectId boreholeId updates,
      storage.updateBorehole projectId boreholeId updates w = (Thrown error, w') ->
      failedWrite w error w') /\
  (forall projectId boreholeId,
      storage.deleteBorehole projectId boreholeId w = (Thrown error, w') ->
      failedWrite w error w').
Proof.
  split; [| split; [| split; [| split; [| split]]]]; intros.
  - eapply createProject_thrown; eassumption.
  - eapply updateProject_thrown; eassumption.
  - eapply deleteProject_thrown; eassumption.
  - eapply addBorehole_thrown; eassumption.
  - eapply updateBorehole_thrown; eassumption.
  - eapply deleteBorehole_thrown; eassumption.
Qed.

Lemma mutators_fail_atomically_witness :
  failedWrite fullWorld "Failed to save data"
    (snd (storage.addBorehole "p1" placed fullWorld)) /\
  stored (snd (storage.addBorehole "p1" placed fullWorld)) = [acme].
Proof.
  split; [| reflexivity].
  destruct (mutators_fail_atomically fullWorld
              (snd (storage.addBorehole "p1" placed fullWorld))
              "Failed to save data") as (_ & _ & _ & Hadd & _).
  apply (Hadd "p1" placed). reflexivity.
Defined.

(** *** [getProject] and [deleteProject] *)

(** X2: on a storage that holds nothing, a text that does not parse, or
    the serialization of an array of projects, [getProject] returns and
    leaves the storage as it is. It returns the first stored project with
    the id, and absent exactly when no stored project has the id: always so
    when the storage cannot be read or holds text that does not parse. *)
Theorem getProject_first_or_absent (w : World) (projectId : string) :
  exists result w',
    storage.getProject projectId w = (Returned result, w') /\
    localStorage w' = localStorage w /\
    (forall p, result = Some p ->
       Project.id p = projectId /\
       exists index,
         nth_error (stored w) index = Some p /\
         forall j q, j < index -> nth_error (stored w) j = Some q ->
                     Project.id q <> projectId) /\
    (result = None <-> forall p, In p (stored w) -> Project.id p <> projectId) /\
    (access (localStorage w) = Denied -> result = None) /\
    (forall data, item (localStorage w) = Some (Text data) -> result = None).
Proof.
  destruct (getProjects_total w) as (w1 & Hread & Hls & _).
  exists (find (storage.hasId projectId) (stored w)), w1.
  split; [unfold storage.getProject, bind; now rewrite Hread|].
  split; [exact Hls|]. split; [| split; [| split]].
  - intros p Hfound. destruct (find_ref_of_find _ _ _ Hfound) as (index & Hfind).
    destruct (find_ref_Some _ _ _ _ Hfind) as (Hnth & Hhas & Hbefore).
    split; [now apply hasId_true|]. exists index. split; [exact Hnth|].
    intros j q Hj Hq Hid. apply hasId_true in Hid.
    rewrite (Hbefore j q Hj Hq) in Hid. discriminate.
  - rewrite find_ref_find.
    destruct (find_ref (storage.hasId projectId) (stored w)) as [[i x]|] eqn:Hfind.
    + split; [discriminate|]. intros Hnone.
      destruct (find_ref_Some _ _ _ _ Hfind) as (Hnth & Hhas & _).
      apply hasId_true in Hhas. apply nth_error_In in Hnth.
      now destruct (Hnone x Hnth).
    + split; [| reflexivity]. intros _ p Hp Hid.
      apply hasId_true in Hid.
      rewrite (proj1 (find_ref_None _ _) Hfind p Hp) in Hid. discriminate.
  - intros Hdenied.
    assert (Hempty : stored w = []).
    { unfold stored, storage.getProjects, try_catch, bind, localStorage_getItem.
      now rewrite Hdenied. }
    now rewrite Hempty.
  - intros data Hitem.
    assert (Hempty : stored w = []).
    { unfold stored, storage.getProjects, try_catch, bind, localStorage_getItem.
      rewrite Hitem.
      destruct (access (localStorage w)); cbn; try reflexivity;
        now destruct (String.eqb data ""). }
    now rewrite Hempty.
Qed.

(** What is read after a part of the collection read was written. *)
Lemma stored_filtered (w w' : World) (pred : Project.t -> bool) :
  localStorage w' =
    mkLocalStorage (Some (Json (filter pred (stored w)))) Available ->
  stored w' = filter pred (stored w).
Proof.
  intros Hls. apply (stored_saved _ _ Hls).
  apply map_filter_fixed, stored_exact.
Qed.

(** X3: [deleteProject] returns [false] and writes nothing when no stored
    project has the id. When one has, and the storage accepts the write, it
    returns [true] and persists the collection without every project of that
    id, the others in their order; [getProject] of the id is then absent, so
    no borehole of a deleted project can be read any more. *)
Theorem deleteProject_removes_every_match (w : World) (projectId : string) :
  ((forall p, In p (stored w) -> Project.id p <> projectId) ->
   exists w',
     storage.deleteProject projectId w = (Returned false, w') /\
     localStorage w' = localStorage w) /\
  (forall p,
      In p (stored w) -> Project.id p = projectId ->
      access (localStorage w) = Available ->
      exists w',
        storage.deleteProject projectId w = (Returned true, w') /\
        stored w' =
          filter (fun q => negb (storage.hasId projectId q)) (stored w) /\
        (forall q, In q (stored w') <->
                   In q (stored w) /\ Project.id q <> projectId) /\
        storage.getProject projectId w' = (Returned None, w')).
Proof.
  destruct (deleteProject_run w projectId) as (w1 & Hls & _ & _ & Hrun).
  cbv zeta in Hrun. split.
  - intros Hnone. exists w1. split; [| exact Hls]. rewrite Hrun.
    rewrite filter_all; [now rewrite Nat.eqb_refl|].
    intros p Hp. apply negb_true_iff.
    destruct (storage.hasId projectId p) eqn:Hhas; [| reflexivity].
    apply hasId_true in Hhas. now destruct (Hnone p Hp).
  - intros p Hp Hid Hacc.
    assert (Hless : Nat.eqb
              (length (filter (fun q => negb (storage.hasId projectId q))
                         (stored w)))
              (length (stored w)) = false).
    { apply Nat.eqb_neq. intros Hsame.
      pose proof (proj1 (filter_length_same _ _) Hsame p Hp) as Hkept.
      cbn beta in Hkept. apply negb_true_iff in Hkept.
      apply hasId_true in Hid. congruence. }
    rewrite Hless, save_then_ret, Hls, Hacc in Hrun.
    eexists. split; [exact Hrun|].
    match type of Hrun with _ = (_, ?w2) => set (w' := w2) in * end.
    assert (Hstored : stored w' =
              filter (fun q => negb (storage.hasId projectId q)) (stored w))
      by now apply stored_filtered.
    split; [exact Hstored|]. split.
    + intros q. rewrite Hstored, filter_In, negb_true_iff.
      split; intros (Hq & Hother); (split; [exact Hq|]).
      * intros Hsameid. apply hasId_true in Hsameid. congruence.
      * destruct (storage.hasId projectId q) eqn:Hhas; [| reflexivity].
        apply hasId_true in Hhas. contradiction.
    + unfold storage.getProject, bind.
      rewrite (getProjects_Json w' _ eq_refl). unfold ret. f_equal. f_equal.
      rewrite Hstored, find_ref_find.
      assert (Hnone : find_ref (storage.hasId projectId)
                (filter (fun q => negb (storage.hasId projectId q)) (stored w))
              = None).
      { apply find_ref_None. intros q Hq. apply filter_In in Hq.
        now apply negb_true_iff. }
      now rewrite Hnone.
Qed.

Lemma deleteProject_removes_every_match_witness :
  exists w',
    storage.deleteProject "p1" acmeWorld = (Returned true, w') /\
    stored w' = [] /\
    storage.getProject "p1" w' = (Returned None, w').
Proof.
  destruct (proj2 (deleteProject_removes_every_match acmeWorld "p1") acme
              (or_introl eq_refl) eq_refl eq_refl)
    as (w' & Hrun & Hstored & _ & Hget).
  exists w'. split; [exact Hrun|]. split; [exact Hstored | exact Hget].
Defined.

(** *** What the borehole operations leave alone *)

Lemma onlyProjectChanged_same (projectId : string) (w w' : World) :
  localStorage w' = localStorage w -> onlyProjectChanged projectId w w'.
Proof.
  intros Hls. unfold onlyProjectChanged. rewrite (stored_ext _ _ Hls).
  split; [reflexivity | now intros j p Hnth _].
Qed.

Lemma onlyProjectChanged_assign (projectId : string) (w w' : World)
    (index : nat) (project project' : Project.t) :
  find_ref (storage.hasId projectId) (stored w) = Some (index, project) ->
  Project.id project' = Project.id project ->
  localStorage w' =
    mkLocalStorage (Some (Json (assign index project' (stored w)))) Available ->
  onlyProjectChanged projectId w w'.
Proof.
  intros Hfind Hid Hls.
  destruct (find_ref_Some _ _ _ _ Hfind) as (Hnth & Hhas & _).
  apply hasId_true in Hhas.
  unfold onlyProjectChanged. rewrite (stored_assigned _ _ _ _ Hls). split.
  - now apply (map_assign_same Project.id _ _ project).
  - intros j p Hj Hother. rewrite nth_error_assign_other; [exact Hj|].
    intros ->. rewrite Hnth in Hj. injection Hj as <-. contradiction.
Qed.

(** X4: [addBorehole], [updateBorehole] and [deleteBorehole], whatever they
    return and also when they throw, keep the ids and the order of the stored
    projects and leave every project with another id than the one they were
    given exactly as it was: boreholes are never added to, changed in or
    removed from another project. *)
Theorem borehole_operations_touch_one_project (w w' : World)
    (projectId : string) :
  (forall data o,
      storage.addBorehole projectId data w = (o, w') ->
      onlyProjectChanged projectId w w') /\
  (forall boreholeId updates o,
      storage.updateBorehole projectId boreholeId updates w = (o, w') ->
      onlyProjectChanged projectId w w') /\
  (forall boreholeId o,
      storage.deleteBorehole projectId boreholeId w = (o, w') ->
      onlyProjectChanged projectId w w').
Proof.
  assert (Hend : forall (A : Type) index project project' (r : A) w2 o,
             find_ref (storage.hasId projectId) (stored w) =
               Some (index, project) ->
             Project.id project' = Project.id project ->
             localStorage w2 = localStorage w ->
             (storage.saveProjects (assign index project' (stored w)) ;;; ret r)
               w2 = (o, w') ->
             onlyProjectChanged projectId w w').
  { intros A index project project' r w2 o Hfind Hid Hls Hrun.
    destruct (save_then_ret_cases _ _ _ _ _ Hrun)
      as [(_ & _ & Hsaved) | (_ & _ & Hsame & _)].
    - exact (onlyProjectChanged_assign _ _ _ _ _ _ Hfind Hid Hsaved).
    - apply onlyProjectChanged_same. now rewrite Hsame. }
  split; [| split].
  - intros data o.
    destruct (addBorehole_run w projectId data) as (w1 & w2 & Hls1 & Hls2 & ->).
    destruct (find_ref _ _) as [[index project]|] eqn:Hfind.
    + cbv zeta. now apply Hend with (project := project).
    + intros [= _ <-]. now apply onlyProjectChanged_same.
  - intros boreholeId updates o.
    destruct (updateBorehole_run w projectId boreholeId updates)
      as (w1 & w2 & Hls1 & Hls2 & ->).
    destruct (find_ref (storage.hasId projectId) (stored w))
      as [[index project]|] eqn:Hfind.
    + destruct (find_ref _ (Project.boreholes project))
        as [[boreholeIndex found]|].
      * cbv zeta. now apply Hend with (project := project).
      * intros [= _ <-]. now apply onlyProjectChanged_same.
    + intros [= _ <-]. now apply onlyProjectChanged_same.
  - intros boreholeId o.
    destruct (deleteBorehole_run' w projectId boreholeId)
      as (w1 & w2 & Hls1 & Hls2 & ->).
    destruct (find_ref _ _) as [[index project]|] eqn:Hfind.
    + cbv zeta. destruct (Nat.eqb _ _).
      * intros [= _ <-]. now apply onlyProjectChanged_same.
      * now apply Hend with (project := project).
    + intros [= _ <-]. now apply onlyProjectChanged_same.
Qed.

Lemma borehole_operations_touch_one_project_witness :
  onlyProjectChanged "p1" twoProjects
    (snd (storage.deleteBorehole "p1" "id-BH01" twoProjects)) /\
  fst (storage.deleteBorehole "p1" "id-BH01" twoProjects) = Returned true /\
  nth_error (stored (snd (storage.deleteBorehole "p1" "id-BH01" twoProjects))) 1
    = Some harbour.
Proof.
  split; [| split; reflexivity].
  destruct (borehole_operations_touch_one_project twoProjects
              (snd (storage.deleteBorehole "p1" "id-BH01" twoProjects)) "p1")
    as (_ & _ & Hdelete).
  apply (Hdelete "id-BH01" (Returned true)). reflexivity.
Defined.

(** *** Codes and identifiers stay distinct *)

(** X5: when [addBorehole] is given no code, or the empty code, the code of
    the borehole it adds is not the code of any borehole of the project; so a
    project whose borehole codes are distinct still has distinct codes
    afterwards. The project read afterwards has its former boreholes
    followed by the new one as JSON gives it back, under the same code. *)
Theorem addBorehole_keeps_codes_distinct (w : World) (projectId : string)
    (data : BoreholeData.t) (project : Project.t) :
  find (storage.hasId projectId) (stored w) = Some project ->
  access (localStorage w) = Available ->
  BoreholeData.code data = None \/ BoreholeData.code data = Some "" ->
  exists borehole project' w',
    storage.addBorehole projectId data w = (Returned (Some borehole), w') /\
    find (storage.hasId projectId) (stored w') = Some project' /\
    Project.boreholes project' =
      (Project.boreholes project ++ [roundTripBorehole borehole])%list /\
    Borehole.code (roundTripBorehole borehole) = Borehole.code borehole /\
    ~ In (Borehole.code borehole)
         (map Borehole.code (Project.boreholes project)) /\
    (NoDup (map Borehole.code (Project.boreholes project)) ->
     NoDup (map Borehole.code (Project.boreholes project'))).
Proof.
  intros Hfound Hacc Hcode.
  destruct (find_ref_of_find _ _ _ Hfound) as (index & Hfind).
  destruct (addBorehole_found w projectId data index project Hfind Hacc)
    as (w' & Hrun & Hls).
  eassert (Hfind' : find_ref (storage.hasId projectId) (stored w') = Some (index, _)).
  { eapply (find_after_assign w' projectId index project);
      [exact Hfind | exact Hls | reflexivity]. }
  rewrite (boreholes_pushed _ _ _ _ _ _ Hfind) in Hfind'.
  do 2 eexists. exists w'. split; [exact Hrun|].
  split; [rewrite find_ref_find, Hfind'; reflexivity|].
  split; [reflexivity|]. split; [reflexivity|].
  assert (Hgenerated :
            Borehole.code (storage.newBorehole (uuids w 0) (clock w 0) project data)
            = generateBoreholeCode project).
  { cbn [storage.newBorehole Borehole.code].
    now destruct Hcode as [-> | ->]. }
  assert (Hfree : ~ In (generateBoreholeCode project)
                       (map Borehole.code (Project.boreholes project))).
  { destruct (generateBoreholeCode_spec project) as (num & _ & -> & Hfree & _).
    exact Hfree. }
  rewrite Hgenerated. split; [exact Hfree|].
  intros Hdistinct. cbn [snd storage.touch Project.boreholes].
  rewrite map_app. cbn [map roundTripBorehole Borehole.code].
  rewrite Hgenerated.
  apply NoDup_app; [exact Hdistinct | repeat constructor; intros [] |].
  intros c Hc [<- | []]. contradiction.
Qed.

Lemma addBorehole_keeps_codes_distinct_witness :
  exists borehole project' w',
    storage.addBorehole "p1" placed acmeWorld = (Returned (Some borehole), w') /\
    find (storage.hasId "p1") (stored w') = Some project' /\
    ~ In (Borehole.code borehole) ["BH01"; "BH02"] /\
    NoDup (map Borehole.code (Project.boreholes project')).
Proof.
  destruct (addBorehole_keeps_codes_distinct acmeWorld "p1" placed acme
              eq_refl eq_refl (or_introl eq_refl))
    as (borehole & project' & w' & Hrun & Hfind & _ & _ & Hfree & Hdistinct).
  exists borehole, project', w'. split; [exact Hrun|]. split; [exact Hfind|].
  split; [exact Hfree|]. apply Hdistinct.
  repeat constructor; cbn; intuition discriminate.
Defined.

(** *** Operations undone and repeated *)

Lemma deleteBorehole_available (w : World) (projectId boreholeId : string)
    (index : nat) (project : Project.t) (b : Borehole.t) :
  find_ref (storage.hasId projectId) (stored w) = Some (index, project) ->
  In b (Project.boreholes project) -> Borehole.id b = boreholeId ->
  access (localStorage w) = Available ->
  exists now w',
    storage.deleteBorehole projectId boreholeId w = (Returned true, w') /\
    localStorage w' =
      mkLocalStorage
        (Some (Json (assign index
                 (storage.touch project
                    (filter (storage.otherId boreholeId)
                            (Project.boreholes project)) now)
                 (stored w))))
        Available.
Proof.
  intros Hfind Hb Hid Hacc.
  destruct (deleteBorehole_run' w projectId boreholeId)
    as (w1 & w2 & _ & Hls & Hrun).
  rewrite Hfind in Hrun. cbv zeta in Hrun.
  assert (Hless : Nat.eqb
            (length (filter (storage.otherId boreholeId)
                       (Project.boreholes project)))
            (length (Project.boreholes project)) = false).
  { apply Nat.eqb_neq. intros Hsame.
    pose proof (proj1 (filter_length_same _ _) Hsame b Hb) as Hother.
    apply otherId_true in Hother. contradiction. }
  rewrite Hless, save_then_ret, Hls, Hacc in Hrun.
  do 2 eexists. split; [exact Hrun | reflexivity].
Qed.

(** X6: adding a borehole and then deleting the borehole returned gives the
    project its former boreholes back, when the identifier drawn for the new
    borehole is not the id of a borehole the project already has; both calls
    succeed on a storage that accepts writes. *)
Theorem addBorehole_then_deleteBorehole (w : World) (projectId : string)
    (data : BoreholeData.t) (project : Project.t) :
  find (storage.hasId projectId) (stored w) = Some project ->
  access (localStorage w) = Available ->
  (forall b, In b (Project.boreholes project) -> Borehole.id b <> uuids w 0) ->
  exists borehole w1 w2 project2,
    storage.addBorehole projectId data w = (Returned (Some borehole), w1) /\
    storage.deleteBorehole projectId (Borehole.id borehole) w1 =
      (Returned true, w2) /\
    find (storage.hasId projectId) (stored w2) = Some project2 /\
    Project.boreholes project2 = Project.boreholes project /\
    Project.id project2 = Project.id project /\
    Project.name project2 = Project.name project /\
    Project.createdAt project2 = Project.createdAt project /\
    length (stored w2) = length (stored w).
Proof.
  intros Hfound Hacc Hfresh.
  destruct (find_ref_of_find _ _ _ Hfound) as (index & Hfind).
  destruct (addBorehole_found w projectId data index project Hfind Hacc)
    as (w1 & Hadd & Hls1).
  set (borehole := storage.newBorehole (uuids w 0) (clock w 0) project data) in *.
  pose proof (find_after_assign _ _ _ _ _ _ Hfind Hls1 eq_refl) as Hfind1.
  rewrite (boreholes_pushed _ _ _ _ _ _ Hfind) in Hfind1.
  set (project1 := storage.touch project
                     (Project.boreholes project ++ [roundTripBorehole borehole])
                     (clock w 0)) in *.
  assert (Hacc1 : access (localStorage w1) = Available) by now rewrite Hls1.
  destruct (deleteBorehole_available w1 projectId (Borehole.id borehole) index
              project1 (roundTripBorehole borehole) Hfind1)
    as (now & w2 & Hdelete & Hls2); [| reflexivity | exact Hacc1 |].
  { cbn [project1 storage.touch Project.boreholes]. apply in_or_app.
    right. now left. }
  assert (Hback : filter (storage.otherId (Borehole.id borehole))
                    (Project.boreholes project1) = Project.boreholes project).
  { cbn [project1 storage.touch Project.boreholes]. rewrite filter_app.
    cbn [filter]. unfold storage.otherId at 2, storage.boreholeHasId.
    cbn [roundTripBorehole Borehole.id].
    rewrite String.eqb_refl. cbn [negb]. rewrite app_nil_r.
    apply filter_all. intros b Hb. apply otherId_true.
    now apply Hfresh. }
  rewrite Hback in Hls2.
  pose proof (find_after_assign _ _ _ _ _ _ Hfind1 Hls2 eq_refl) as Hfind2.
  exists borehole, w1, w2. eexists.
  split; [exact Hadd|]. split; [exact Hdelete|].
  split; [rewrite find_ref_find, Hfind2; reflexivity|].
  split.
  { cbn [roundTripProject storage.touch Project.boreholes].
    exact (boreholes_exact _ (found_exact _ _ _ _ Hfind)). }
  do 3 (split; [reflexivity|]).
  rewrite (stored_assigned _ _ _ _ Hls2), (stored_assigned _ _ _ _ Hls1).
  now rewrite !length_assign.
Qed.

Lemma addBorehole_then_deleteBorehole_witness :
  exists borehole w1 w2 project2,
    storage.addBorehole "p1" placed acmeWorld = (Returned (Some borehole), w1) /\
    storage.deleteBorehole "p1" (Borehole.id borehole) w1 = (Returned true, w2) /\
    find (storage.hasId "p1") (stored w2) = Some project2 /\
    Project.boreholes project2 = Project.boreholes acme.
Proof.
  destruct (addBorehole_then_deleteBorehole acmeWorld "p1" placed acme
              eq_refl eq_refl)
    as (borehole & w1 & w2 & project2 & Hadd & Hdelete & Hfind & Hsame & _).
  { cbn. intros b [<- | [<- | []]]; discriminate. }
  exists borehole, w1, w2, project2. repeat split; assumption.
Defined.

(** X7: once [deleteBorehole] has returned [true], the same call made again
    returns [false] and writes nothing: every borehole with the id went at the
    first call. *)
Theorem deleteBorehole_twice (w w1 : World) (projectId boreholeId : string) :
  storage.deleteBorehole projectId boreholeId w = (Returned true, w1) ->
  exists w2,
    storage.deleteBorehole projectId boreholeId w1 = (Returned false, w2) /\
    localStorage w2 = localStorage w1 /\
    (forall project b,
        find (storage.hasId projectId) (stored w1) = Some project ->
        In b (Project.boreholes project) -> Borehole.id b <> boreholeId).
Proof.
  destruct (deleteBorehole_run' w projectId boreholeId)
    as (wa & wb & _ & Hls & ->).
  destruct (find_ref (storage.hasId projectId) (stored w))
    as [[index project]|] eqn:Hfind; [| discriminate].
  cbv zeta. destruct (Nat.eqb _ _); [discriminate|]. intros Hrun.
  destruct (save_then_ret_cases _ _ _ _ _ Hrun)
    as [(_ & _ & Hls1) | (_ & Hthrown & _)]; [| discriminate].
  eassert (Hfind1 : find_ref (storage.hasId projectId) (stored w1) =
                    Some (index, _)).
  { eapply (find_after_assign w1 projectId index project);
      [exact Hfind | exact Hls1 | reflexivity]. }
  rewrite (boreholes_filtered _ _ _ _ _ _ Hfind) in Hfind1.
  destruct (deleteBorehole_run' w1 projectId boreholeId)
    as (wc & wd & Hlsc & _ & Hrun1).
  rewrite Hfind1 in Hrun1. cbv zeta in Hrun1.
  cbn [storage.touch Project.boreholes] in Hrun1.
  rewrite filter_twice, Nat.eqb_refl in Hrun1.
  exists wc. split; [exact Hrun1|]. split; [exact Hlsc|].
  intros project1 b Hfound Hb.
  rewrite find_ref_find, Hfind1 in Hfound. injection Hfound as <-.
  cbn [storage.touch Project.boreholes] in Hb. apply filter_In in Hb.
  now apply otherId_true.
Qed.

Lemma deleteBorehole_twice_witness :
  exists w2,
    storage.deleteBorehole "p1" "id-BH01"
      (snd (storage.deleteBorehole "p1" "id-BH01" acmeWorld)) =
      (Returned false, w2) /\
    stored w2 = stored (snd (storage.deleteBorehole "p1" "id-BH01" acmeWorld)).
Proof.
  destruct (deleteBorehole_twice acmeWorld
              (snd (storage.deleteBorehole "p1" "id-BH01" acmeWorld))
              "p1" "id-BH01" eq_refl) as (w2 & Hrun & Hls & _).
  exists w2. split; [exact Hrun | now apply stored_ext].
Defined.

(** X8: creating a project and then deleting the project returned gives the
    former collection back, when the identifier drawn for the new project is
    not the id of a stored project; both calls succeed on a storage that
    accepts writes. *)
Theorem createProject_then_deleteProject (w : World) (data : ProjectData.t) :
  access (localStorage w) = Available ->
  (forall p, In p (stored w) -> Project.id p <> uuids w 0) ->
  exists P w1 w2,
    storage.createProject data w = (Returned P, w1) /\
    stored w1 = P :: stored w /\
    storage.deleteProject (Project.id P) w1 = (Returned true, w2) /\
    stored w2 = stored w.
Proof.
  intros Hacc Hfresh.
  destruct (createProject_available w data Hacc) as (w1 & Hcreate & Hls1).
  set (P := storage.newProject (uuids w 0) (clock w 0) data) in *.
  destruct (deleteProject_run w1 (Project.id P)) as (wa & Hlsa & _ & _ & Hrun).
  pose proof (stored_created w w1 P eq_refl Hls1) as Hstored1.
  rewrite Hstored1 in Hrun. cbv zeta in Hrun.
  assert (Hback : filter (fun p => negb (storage.hasId (Project.id P) p))
                    (P :: stored w) = stored w).
  { cbn [filter]. unfold storage.hasId at 1. rewrite String.eqb_refl.
    cbn [negb]. apply filter_all. intros p Hp. apply negb_true_iff.
    destruct (storage.hasId (Project.id P) p) eqn:Hhas; [| reflexivity].
    apply hasId_true in Hhas. now destruct (Hfresh p Hp). }
  rewrite Hback in Hrun. cbn [length] in Hrun.
  assert (Hless : Nat.eqb (length (stored w)) (S (length (stored w))) = false)
    by (apply Nat.eqb_neq; lia).
  rewrite Hless, save_then_ret, Hlsa, Hls1 in Hrun. cbn [access] in Hrun.
  exists P, w1. eexists. split; [exact Hcreate|].
  split; [exact Hstored1|]. split; [exact Hrun|].
  apply (stored_saved _ (stored w)); [reflexivity | apply stored_exact].
Qed.

Lemma createProject_then_deleteProject_witness :
  exists P w1 w2,
    storage.createProject dataX twoProjects = (Returned P, w1) /\
    stored w1 = P :: stored twoProjects /\
    storage.deleteProject (Project.id P) w1 = (Returned true, w2) /\
    stored w2 = [acme; harbour].
Proof.
  apply (createProject_then_deleteProject twoProjects dataX eq_refl).
  cbn. intros p [<- | [<- | []]]; discriminate.
Defined.

(** X9: an update that carries no [id] keeps the borehole findable: after
    [updateBorehole], on a storage that accepts writes, the project has its
    boreholes under the same ids in the same order, and looking the id up
    among them gives the record [updateBorehole] returned, as JSON gives it
    back: the very record when JSON changes none of its numbers. *)
Theorem updateBorehole_keeps_ids (w : World) (projectId boreholeId : string)
    (updates : BoreholeUpdates.t) (project : Project.t) (found : Borehole.t) :
  find (storage.hasId projectId) (stored w) = Some project ->
  find (storage.boreholeHasId boreholeId) (Project.boreholes project) =
    Some found ->
  access (localStorage w) = Available ->
  BoreholeUpdates.id updates = None ->
  exists updated project' w',
    storage.updateBorehole projectId boreholeId updates w =
      (Returned (Some updated), w') /\
    find (storage.hasId projectId) (stored w') = Some project' /\
    map Borehole.id (Project.boreholes project') =
      map Borehole.id (Project.boreholes project) /\
    find (storage.boreholeHasId boreholeId) (Project.boreholes project') =
      Some (roundTripBorehole updated) /\
    (roundTripBorehole updated = updated ->
     find (storage.boreholeHasId boreholeId) (Project.boreholes project') =
       Some updated).
Proof.
  intros Hproject Hfound Hacc Hid.
  destruct (find_ref_of_find _ _ _ Hproject) as (index & Hfind).
  destruct (find_ref_of_find _ _ _ Hfound) as (boreholeIndex & Hborehole).
  destruct (updateBorehole_found w projectId boreholeId updates index
              boreholeIndex project found Hfind Hborehole Hacc)
    as (w' & Hrun & Hls).
  set (updated := storage.mergeBorehole found updates (clock w 0)) in *.
  eassert (Hfind' : find_ref (storage.hasId projectId) (stored w') =
                    Some (index, _)).
  { eapply (find_after_assign w' projectId index project);
      [exact Hfind | exact Hls | reflexivity]. }
  rewrite (boreholes_replaced _ _ _ _ _ _ _ Hfind) in Hfind'.
  destruct (find_ref_Some _ _ _ _ Hborehole) as (Hnth & Hhas & _).
  assert (Hsame : Borehole.id (roundTripBorehole updated) = Borehole.id found)
    by (unfold updated, storage.mergeBorehole;
        cbn [roundTripBorehole Borehole.id]; now rewrite Hid).
  assert (Hlookup : find (storage.boreholeHasId boreholeId)
                      (assign boreholeIndex (roundTripBorehole updated)
                         (Project.boreholes project)) =
                    Some (roundTripBorehole updated)).
  { rewrite find_ref_find.
    erewrite find_ref_assign; [reflexivity | exact Hborehole |].
    apply boreholeHasId_true. apply boreholeHasId_true in Hhas. congruence. }
  exists updated. eexists. exists w'. split; [exact Hrun|].
  split; [rewrite find_ref_find, Hfind'; reflexivity|].
  cbn [snd storage.touch Project.boreholes]. split; [| split].
  - now apply (map_assign_same Borehole.id _ _ found).
  - exact Hlookup.
  - intros Hexact. now rewrite Hlookup, Hexact.
Qed.

Lemma updateBorehole_keeps_ids_witness :
  exists updated project' w',
    storage.updateBorehole "p1" "id-BH02"
      (BoreholeUpdates.onlyStatus Drilling) acmeWorld =
      (Returned (Some updated), w') /\
    find (storage.hasId "p1") (stored w') = Some project' /\
    map Borehole.id (Project.boreholes project') = ["id-BH01"; "id-BH02"] /\
    find (storage.boreholeHasId "id-BH02") (Project.boreholes project') =
      Some updated.
Proof.
  destruct (updateBorehole_keeps_ids acmeWorld "p1" "id-BH02"
              (BoreholeUpdates.onlyStatus Drilling) acme
              (boreholeWithCode "BH02") eq_refl eq_refl eq_refl eq_refl)
    as (updated & project' & w' & Hrun & Hfind & Hids & _ & Hexact).
  exists updated, project', w'. split; [exact Hrun|]. split; [exact Hfind|].
  split; [exact Hids|]. apply Hexact.
  injection Hrun as Hupdated _. now rewrite <- Hupdated.
Defined.

(** *** [initializeSampleData] *)

(** X10: [initializeSampleData] writes nothing when the collection read has
    a project. When the collection read is empty it persists the sample
    projects, on a storage that accepts writes: so it also replaces stored
    text that does not parse, which reads as the empty collection. The
    collection read afterwards is the sample as JSON gives it back: the
    sample itself when its numbers are finite and none is [-0], as those of
    the literal are. Run again after it has persisted a sample that is not
    empty, it writes nothing. *)
Theorem initializeSampleData_seeds_an_empty_store (w : World)
    (sampleProjects : list Project.t) :
  (stored w <> [] ->
   exists w',
     storage.initializeSampleData sampleProjects w = (Returned tt, w') /\
     localStorage w' = localStorage w) /\
  (stored w = [] -> access (localStorage w) = Available ->
   exists w',
     storage.initializeSampleData sampleProjects w = (Returned tt, w') /\
     item (localStorage w') = Some (Json sampleProjects) /\
     stored w' = map roundTripProject sampleProjects /\
     (map roundTripProject sampleProjects = sampleProjects ->
      stored w' = sampleProjects) /\
     (sampleProjects <> [] ->
      exists w'',
        storage.initializeSampleData sampleProjects w' = (Returned tt, w'') /\
        localStorage w'' = localStorage w')) /\
  (forall data, item (localStorage w) = Some (Text data) -> stored w = []).
Proof.
  assert (Hguard : forall v, stored v <> [] ->
            exists v',
              storage.initializeSampleData sampleProjects v = (Returned tt, v') /\
              localStorage v' = localStorage v).
  { intros v Hsome. destruct (getProjects_total v) as (v1 & Hread & Hls & _).
    exists v1. split; [| exact Hls].
    unfold storage.initializeSampleData, bind. rewrite Hread.
    destruct (stored v) as [|p rest]; [contradiction | reflexivity]. }
  split; [exact (Hguard w) | split].
  - intros Hempty Hacc.
    destruct (getProjects_total w) as (w1 & Hread & Hls & _).
    unfold storage.initializeSampleData, bind. rewrite Hread, Hempty.
    cbn [length Nat.ltb Nat.leb].
    rewrite saveProjects_available by now rewrite Hls.
    eexists. split; [reflexivity|]. split; [reflexivity|].
    split; [now apply stored_Json|].
    split; [intros Hexact; now apply stored_saved|].
    intros Hnonempty. apply Hguard.
    erewrite stored_Json; [| reflexivity].
    destruct sampleProjects; [contradiction | discriminate].
  - intros data Hitem.
    unfold stored, storage.getProjects, try_catch, bind, localStorage_getItem.
    rewrite Hitem.
    destruct (access (localStorage w)); cbn; try reflexivity;
      now destruct (String.eqb data "").
Qed.

Lemma initializeSampleData_seeds_an_empty_store_witness :
  exists w',
    storage.initializeSampleData [acme; harbour] corruptWorld = (Returned tt, w') /\
    item (localStorage corruptWorld) = Some (Text "{oops") /\
    item (localStorage w') = Some (Json [acme; harbour]).
Proof.
  destruct (initializeSampleData_seeds_an_empty_store corruptWorld [acme; harbour])
    as (_ & Hseed & _).
  destruct (Hseed eq_refl eq_refl) as (w' & Hrun & Hitem & _).
  exists w'. split; [exact Hrun|]. split; [reflexivity | exact Hitem].
Defined.

(** ** More of the Facade *)

Lemma loadProjects_run (s : useProjects.State) (w : World) :
  exists w',
    useProjects.loadProjects s w =
      (useProjects.mkState (stored w) (useProjects.currentProject s)
         (useProjects.selectedBorehole s) false None, w') /\
    localStorage w' = localStorage w.
Proof.
  destruct (getProjects_total w) as (w1 & Hread & Hls & _).
  unfold useProjects.loadProjects. rewrite Hread.
  exists w1. split; [reflexivity | exact Hls].
Qed.

(** X11: on a storage that holds nothing, a text that does not parse, or
    the serialization of an array of projects, [loadProject] takes its
    [try] branch to the end and writes nothing. It makes the first stored
    project with the id the current one, and leaves no current project when
    none has the id; in either case it drops the selection and the error
    message, ends the loading state and keeps the project list. *)
Theorem loadProject_resets_selection (projectId : string)
    (s : useProjects.State) (w : World) :
  exists s' w',
    useProjects.loadProject projectId s w = (s', w') /\
    localStorage w' = localStorage w /\
    useProjects.currentProject s' = find (storage.hasId projectId) (stored w) /\
    ((forall p, In p (stored w) -> Project.id p <> projectId) ->
     useProjects.currentProject s' = None) /\
    useProjects.selectedBorehole s' = None /\
    useProjects.error s' = None /\
    useProjects.isLoading s' = false /\
    useProjects.projects s' = useProjects.projects s.
Proof.
  destruct (loadProject_run projectId s w) as (w' & Hrun & Hls).
  do 2 eexists. split; [exact Hrun|]. split; [exact Hls|].
  split; [reflexivity|]. split; [| repeat split].
  intros Hnone. cbn [useProjects.currentProject].
  rewrite find_ref_find, (find_hasId _ _ Hnone). reflexivity.
Qed.

(** X12: the Facade's [createProject] returns the project the Store created
    and reloads the list, which then is the stored collection with the new
    project first; the current project and the selection stay. When the
    storage refuses the write it returns [null], records the message
    [Failed to create project], and leaves the list, the current project, the
    selection and the storage as they were. *)
Theorem facade_createProject (data : ProjectData.t) (s : useProjects.State)
    (w : World) :
  (access (localStorage w) = Available ->
   exists P s' w',
     useProjects.createProject data s w = (Some P, (s', w')) /\
     Project.id P = uuids w 0 /\
     useProjects.projects s' = P :: stored w /\
     useProjects.projects s' = stored w' /\
     useProjects.error s' = None /\
     useProjects.currentProject s' = useProjects.currentProject s /\
     useProjects.selectedBorehole s' = useProjects.selectedBorehole s) /\
  (access (localStorage w) <> Available ->
   exists w',
     useProjects.createProject data s w =
       (None, (useProjects.setError (Some "Failed to create project") s, w')) /\
     localStorage w' = localStorage w).
Proof.
  split.
  - intros Hacc.
    destruct (createProject_available w data Hacc) as (w1 & Hrun & Hls).
    destruct (loadProjects_run s w1) as (w2 & Hload & Hls2).
    unfold useProjects.createProject. rewrite Hrun, Hload.
    do 3 eexists. split; [reflexivity|]. split; [reflexivity|].
    cbn [useProjects.projects useProjects.error useProjects.currentProject
         useProjects.selectedBorehole].
    split; [exact (stored_created _ _ _ eq_refl Hls)|].
    split; [now apply stored_ext|]. repeat split.
  - intros Hacc.
    destruct (createProject_run w data) as (w1 & Hls & Hrun).
    rewrite save_then_ret in Hrun. rewrite Hls in Hrun.
    unfold useProjects.createProject. rewrite Hrun.
    destruct (access (localStorage w)); [contradiction | |];
      (eexists; split; reflexivity).
Qed.

Lemma facade_createProject_witness :
  (exists P s' w',
      useProjects.createProject dataX useProjects.initial acmeWorld =
        (Some P, (s', w')) /\
      useProjects.projects s' = [P; acme]) /\
  (exists w',
      useProjects.createProject dataX useProjects.initial fullWorld =
        (None,
         (useProjects.setError (Some "Failed to create project")
            useProjects.initial, w')) /\
      stored w' = [acme]).
Proof.
  destruct (facade_createProject dataX useProjects.initial acmeWorld)
    as (Hok & _).
  destruct (facade_createProject dataX useProjects.initial fullWorld)
    as (_ & Hfull).
  split.
  - destruct (Hok eq_refl) as (P & s' & w' & Hrun & _ & Hlist & _).
    exists P, s', w'. split; [exact Hrun | exact Hlist].
  - destruct Hfull as (w' & Hrun & Hls); [discriminate|].
    exists w'. split; [exact Hrun|]. now rewrite (stored_ext _ _ Hls).
Defined.

(** X13: the Facade's [addBorehole] does nothing and returns [null] when no
    project is current. With a current project that is stored, on a storage
    that accepts writes, it returns the borehole the Store added, and the
    current project becomes the reloaded one, with that borehole last, as
    JSON gives it back; the selection is dropped. With a current project
    that is no longer stored it returns [null] and leaves no current
    project. *)
Theorem facade_addBorehole (data : BoreholeData.t) (s : useProjects.State)
    (w : World) :
  (useProjects.currentProject s = None ->
   useProjects.addBorehole data s w = (None, (s, w))) /\
  (forall current project,
      useProjects.currentProject s = Some current ->
      find (storage.hasId (Project.id current)) (stored w) = Some project ->
      access (localStorage w) = Available ->
      exists borehole reloaded s' w',
        useProjects.addBorehole data s w = (Some borehole, (s', w')) /\
        useProjects.currentProject s' = Some reloaded /\
        Project.boreholes reloaded =
          (Project.boreholes project ++ [roundTripBorehole borehole])%list /\
        Borehole.id (roundTripBorehole borehole) = Borehole.id borehole /\
        Borehole.code (roundTripBorehole borehole) = Borehole.code borehole /\
        find (storage.hasId (Project.id current)) (stored w') = Some reloaded /\
        useProjects.selectedBorehole s' = None /\
        useProjects.error s' = None) /\
  (forall current,
      useProjects.currentProject s = Some current ->
      (forall p, In p (stored w) -> Project.id p <> Project.id current) ->
      exists s' w',
        useProjects.addBorehole data s w = (None, (s', w')) /\
        useProjects.currentProject s' = None /\
        localStorage w' = localStorage w).
Proof.
  split; [| split].
  - intros Hnone. unfold useProjects.addBorehole. now rewrite Hnone.
  - intros current project Hcurrent Hfound Hacc.
    destruct (find_ref_of_find _ _ _ Hfound) as (index & Hfind).
    destruct (addBorehole_found w (Project.id current) data index project
                Hfind Hacc) as (w1 & Hrun & Hls).
    destruct (loadProject_run (Project.id current) s w1) as (w2 & Hload & Hls2).
    eassert (Hfind1 : find_ref (storage.hasId (Project.id current)) (stored w1)
                      = Some (index, _)).
    { eapply (find_after_assign w1 (Project.id current) index project);
        [exact Hfind | exact Hls | reflexivity]. }
    rewrite (boreholes_pushed _ _ _ _ _ _ Hfind) in Hfind1.
    unfold useProjects.addBorehole. rewrite Hcurrent, Hrun, Hload.
    do 4 eexists. split; [reflexivity|].
    cbn [useProjects.currentProject useProjects.selectedBorehole
         useProjects.error].
    rewrite (stored_ext _ _ Hls2), find_ref_find, Hfind1.
    cbn [option_map snd]. repeat split.
  - intros current Hcurrent Hnone.
    destruct (addBorehole_missing w (Project.id current) data
                (find_hasId _ _ Hnone)) as (w1 & Hrun & Hls).
    destruct (loadProject_run (Project.id current) s w1) as (w2 & Hload & Hls2).
    unfold useProjects.addBorehole. rewrite Hcurrent, Hrun, Hload.
    do 2 eexists. split; [reflexivity|].
    cbn [useProjects.currentProject]. split; [| congruence].
    rewrite (stored_ext _ _ Hls), find_ref_find, (find_hasId _ _ Hnone).
    reflexivity.
Qed.

Lemma facade_addBorehole_witness :
  exists borehole reloaded s' w',
    useProjects.addBorehole placed (fst selecting) (snd selecting) =
      (Some borehole, (s', w')) /\
    useProjects.currentProject s' = Some reloaded /\
    map Borehole.code (Project.boreholes reloaded) = ["BH01"; "BH02"; "BH03"] /\
    useProjects.selectedBorehole (fst selecting) = Some bh01 /\
    useProjects.selectedBorehole s' = None.
Proof.
  destruct (proj1 (proj2 (facade_addBorehole placed (fst selecting)
                            (snd selecting)))
              acme acme eq_refl eq_refl eq_refl)
    as (borehole & reloaded & s' & w' & Hrun & Hcurrent & Hlast & _ & _ & _
        & Hsel & _).
  exists borehole, reloaded, s', w'. split; [exact Hrun|].
  split; [exact Hcurrent|]. split; [| split; [reflexivity | exact Hsel]].
  rewrite Hlast, map_app.
  injection Hrun as Hb _ _. rewrite <- Hb. reflexivity.
Defined.

(** X14: after the Facade's [updateBorehole] on a current project, the Store
    having returned, the selection is the record the Store returned when the
    id is the selected borehole's, and nothing otherwise: updating a borehole
    other than the selected one drops the selection, and so does updating an
    id the Store does not find. The current project is the reloaded one and
    no error is recorded. *)
Theorem facade_updateBorehole_selection (boreholeId : string)
    (updates : BoreholeUpdates.t) (s : useProjects.State) (w w1 : World)
    (current : Project.t) (updated : option Borehole.t) :
  useProjects.currentProject s = Some current ->
  storage.updateBorehole (Project.id current) boreholeId updates w =
    (Returned updated, w1) ->
  exists s' w',
    useProjects.updateBorehole boreholeId updates s w = (s', w') /\
    useProjects.selectedBorehole s' =
      (if useProjects.isSelected s boreholeId then updated else None) /\
    (forall selected,
        useProjects.selectedBorehole s = Some selected ->
        Borehole.id selected <> boreholeId ->
        useProjects.selectedBorehole s' = None) /\
    (updated = None -> useProjects.selectedBorehole s' = None) /\
    useProjects.currentProject s' =
      find (storage.hasId (Project.id current)) (stored w1) /\
    useProjects.error s' = None.
Proof.
  intros Hcurrent Hrun.
  destruct (loadProject_run (Project.id current) s w1) as (w2 & Hload & _).
  unfold useProjects.updateBorehole. rewrite Hcurrent, Hrun, Hload.
  assert (Hother : forall selected,
            useProjects.selectedBorehole s = Some selected ->
            Borehole.id selected <> boreholeId ->
            useProjects.isSelected s boreholeId = false).
  { intros selected Hsel Hne. unfold useProjects.isSelected. rewrite Hsel.
    now apply String.eqb_neq. }
  destruct updated as [b|];
    destruct (useProjects.isSelected s boreholeId) eqn:Hmatch;
    do 2 eexists; (split; [reflexivity|]);
    cbn [useProjects.setSelectedBorehole useProjects.selectedBorehole
         useProjects.currentProject useProjects.error];
    (split; [reflexivity|]);
    (split; [intros selected Hsel Hne;
             pose proof (Hother selected Hsel Hne) as Hfalse;
             first [reflexivity | congruence] |]);
    (split; [intros Hnone; first [reflexivity | discriminate] |]);
    split; reflexivity.
Qed.

Lemma facade_updateBorehole_selection_witness :
  exists s' w',
    useProjects.updateBorehole "id-BH02" (BoreholeUpdates.onlyStatus Drilling)
      (fst selecting) (snd selecting) = (s', w') /\
    useProjects.selectedBorehole (fst selecting) = Some bh01 /\
    useProjects.selectedBorehole s' = None.
Proof.
  destruct (facade_updateBorehole_selection "id-BH02"
              (BoreholeUpdates.onlyStatus Drilling) (fst selecting)
              (snd selecting) _ acme _ eq_refl eq_refl)
    as (s' & w' & Hrun & _ & Hother & _).
  exists s', w'. split; [exact Hrun|]. split; [reflexivity|].
  apply (Hother bh01); [reflexivity | discriminate].
Defined.

(** X15: a failure of the Store never leaves the Facade. When the Store's
    call throws, each of [updateProject], [deleteProject], [addBorehole],
    [updateBorehole] and [deleteBorehole] only records its own message: the
    project list, the current project and the selection are those of before,
    and so is what the storage holds. *)
Theorem facade_contains_failures (s : useProjects.State) (w w1 : World)
    (err : string) :
  (forall projectId updates,
      storage.updateProject projectId updates w = (Thrown err, w1) ->
      exists w',
        useProjects.updateProject projectId updates s w =
          (useProjects.setError (Some "Failed to update project") s, w') /\
        localStorage w' = localStorage w) /\
  (forall projectId,
      storage.deleteProject projectId w = (Thrown err, w1) ->
      exists w',
        useProjects.deleteProject projectId s w =
          (useProjects.setError (Some "Failed to delete project") s, w') /\
        localStorage w' = localStorage w) /\
  (forall current data,
      useProjects.currentProject s = Some current ->
      storage.addBorehole (Project.id current) data w = (Thrown err, w1) ->
      exists w',
        useProjects.addBorehole data s w =
          (None, (useProjects.setError (Some "Failed to add borehole") s, w')) /\
        localStorage w' = localStorage w) /\
  (forall current boreholeId updates,
      useProjects.currentProject s = Some current ->
      storage.updateBorehole (Project.id current) boreholeId updates w =
        (Thrown err, w1) ->
      exists w',
        useProjects.updateBorehole boreholeId updates s w =
          (useProjects.setError (Some "Failed to update borehole") s, w') /\
        localStorage w' = localStorage w) /\
  (forall current boreholeId,
      useProjects.currentProject s = Some current ->
      storage.deleteBorehole (Project.id current) boreholeId w =
        (Thrown err, w1) ->
      exists w',
        useProjects.deleteBorehole boreholeId s w =
          (useProjects.setError (Some "Failed to delete borehole") s, w') /\
        localStorage w' = localStorage w).
Proof.
  split; [| split; [| split; [| split]]].
  - intros projectId updates Hrun.
    destruct (updateProject_thrown _ _ _ _ _ Hrun) as (_ & _ & Hls & _).
    unfold useProjects.updateProject. rewrite Hrun.
    eexists. split; [reflexivity | exact Hls].
  - intros projectId Hrun.
    destruct (deleteProject_thrown _ _ _ _ Hrun) as (_ & _ & Hls & _).
    unfold useProjects.deleteProject. rewrite Hrun.
    eexists. split; [reflexivity | exact Hls].
  - intros current data Hcurrent Hrun.
    destruct (addBorehole_thrown _ _ _ _ _ Hrun) as (_ & _ & Hls & _).
    unfold useProjects.addBorehole. rewrite Hcurrent, Hrun.
    eexists. split; [reflexivity | exact Hls].
  - intros current boreholeId updates Hcurrent Hrun.
    destruct (updateBorehole_thrown _ _ _ _ _ _ Hrun) as (_ & _ & Hls & _).
    unfold useProjects.updateBorehole. rewrite Hcurrent, Hrun.
    eexists. split; [reflexivity | exact Hls].
  - intros current boreholeId Hcurrent Hrun.
    destruct (deleteBorehole_thrown _ _ _ _ _ Hrun) as (_ & _ & Hls & _).
    unfold useProjects.deleteBorehole. rewrite Hcurrent, Hrun.
    eexists. split; [reflexivity | exact Hls].
Qed.

Lemma facade_contains_failures_witness :
  exists w',
    useProjects.deleteBorehole "id-BH01" (fst selecting) fullWorld =
      (useProjects.setError (Some "Failed to delete borehole") (fst selecting),
       w') /\
    stored w' = [acme] /\
    useProjects.selectedBorehole
      (useProjects.setError (Some "Failed to delete borehole") (fst selecting))
      = Some bh01.
Proof.
  destruct (facade_contains_failures (fst selecting) fullWorld
              (snd (storage.deleteBorehole "p1" "id-BH01" fullWorld))
              "Failed to save data") as (_ & _ & _ & _ & Hdelete).
  destruct (Hdelete acme "id-BH01" eq_refl eq_refl) as (w' & Hrun & Hls).
  exists w'. split; [exact Hrun|]. split; [| reflexivity].
  now rewrite (stored_ext _ _ Hls).
Defined.

(** X16: after the Facade's [deleteProject], the Store having returned, the
    project list is the stored collection; no current project is left when
    the deleted id was the current project's, and the current project stays
    otherwise; the selection is never touched. When a stored project had the
    id and the storage accepts the write, no project of the list has it. *)
Theorem facade_deleteProject (projectId : string) (s : useProjects.State)
    (w w1 : World) (removed : bool) :
  storage.deleteProject projectId w = (Returned removed, w1) ->
  exists s' w',
    useProjects.deleteProject projectId s w = (s', w') /\
    useProjects.projects s' = stored w1 /\
    localStorage w' = localStorage w1 /\
    useProjects.currentProject s' =
      (if useProjects.isCurrent s projectId then None
       else useProjects.currentProject s) /\
    useProjects.selectedBorehole s' = useProjects.selectedBorehole s /\
    useProjects.error s' = None /\
    (removed = true ->
     forall p, In p (useProjects.projects s') -> Project.id p <> projectId).
Proof.
  intros Hrun.
  destruct (loadProjects_run s w1) as (w2 & Hload & Hls2).
  unfold useProjects.deleteProject. rewrite Hrun, Hload.
  assert (Hgone : removed = true ->
            forall p, In p (stored w1) -> Project.id p <> projectId).
  { intros ->. destruct (deleteProject_run w projectId)
      as (wa & Hlsa & _ & _ & Hrun').
    rewrite Hrun in Hrun'. cbv zeta in Hrun'.
    destruct (Nat.eqb _ _); [discriminate|]. symmetry in Hrun'.
    destruct (save_then_ret_cases _ _ _ _ _ Hrun')
      as [(_ & _ & Hsaved) | (_ & Hthrown & _)]; [| discriminate].
    rewrite (stored_filtered _ _ _ Hsaved). intros p Hp Hid.
    apply filter_In in Hp. destruct Hp as (_ & Hother).
    apply negb_true_iff in Hother. apply hasId_true in Hid. congruence. }
  destruct (useProjects.isCurrent s projectId);
    do 2 eexists; (split; [reflexivity|]);
    cbn [useProjects.setCurrentProject useProjects.projects
         useProjects.currentProject useProjects.selectedBorehole
         useProjects.error];
    repeat split; assumption.
Qed.

Lemma facade_deleteProject_witness :
  exists s' w',
    useProjects.deleteProject "p1" (fst selecting) (snd selecting) = (s', w') /\
    useProjects.projects s' = [] /\
    useProjects.currentProject s' = None /\
    useProjects.selectedBorehole s' = Some bh01.
Proof.
  destruct (facade_deleteProject "p1" (fst selecting) (snd selecting) _ true
              eq_refl)
    as (s' & w' & Hrun & Hlist & _ & Hcurrent & Hsel & _).
  exists s', w'. split; [exact Hrun|]. split; [exact Hlist|].
  split; [exact Hcurrent | exact Hsel].
Defined.

(** X17: after the Facade's [updateProject], the Store having returned, the
    project list is the stored collection. When the id is the current
    project's, the current project is looked up again under that id and the
    selection is dropped; otherwise both stay. When in addition a stored
    project has the id, the update carries no [id] and the storage accepts
    the write, the project looked up is the record the Store merged, as JSON
    gives it back: the very record when the update carries no boreholes. *)
Theorem facade_updateProject (projectId : string) (updates : ProjectUpdates.t)
    (s : useProjects.State) (w w1 : World) (result : option Project.t) :
  storage.updateProject projectId updates w = (Returned result, w1) ->
  exists s' w',
    useProjects.updateProject projectId updates s w = (s', w') /\
    useProjects.projects s' = stored w1 /\
    localStorage w' = localStorage w1 /\
    useProjects.error s' = None /\
    (useProjects.isCurrent s projectId = true ->
     useProjects.currentProject s' =
       find (storage.hasId projectId) (stored w1) /\
     useProjects.selectedBorehole s' = None) /\
    (useProjects.isCurrent s projectId = false ->
     useProjects.currentProject s' = useProjects.currentProject s /\
     useProjects.selectedBorehole s' = useProjects.selectedBorehole s) /\
    (forall updated,
        result = Some updated -> ProjectUpdates.id updates = None ->
        find (storage.hasId projectId) (stored w1) =
          Some (roundTripProject updated) /\
        (ProjectUpdates.boreholes updates = None ->
         find (storage.hasId projectId) (stored w1) = Some updated)).
Proof.
  intros Hrun.
  destruct (loadProjects_run s w1) as (w2 & Hload & Hls2).
  set (s1 := useProjects.mkState (stored w1) (useProjects.currentProject s)
               (useProjects.selectedBorehole s) false None) in *.
  destruct (loadProject_run projectId s1 w2) as (w3 & Hload' & Hls3).
  unfold useProjects.updateProject. rewrite Hrun, Hload.
  assert (Hmerged : forall updated,
            result = Some updated -> ProjectUpdates.id updates = None ->
            find (storage.hasId projectId) (stored w1) =
              Some (roundTripProject updated) /\
            (ProjectUpdates.boreholes updates = None ->
             find (storage.hasId projectId) (stored w1) = Some updated)).
  { intros updated -> Hid.
    destruct (updateProject_run w projectId updates)
      as (wa & wb & _ & _ & Hrun').
    rewrite Hrun in Hrun'.
    destruct (find_ref (storage.hasId projectId) (stored w))
      as [[index found]|] eqn:Hfind; [| discriminate].
    symmetry in Hrun'.
    destruct (save_then_ret_cases _ _ _ _ _ Hrun')
      as [(_ & [= Hsame] & Hsaved) | (_ & Hthrown & _)]; [| discriminate].
    assert (Hkept : Project.id (storage.mergeProject found updates (clock w 0))
                    = Project.id found)
      by (unfold storage.mergeProject; cbn [Project.id]; now rewrite Hid).
    rewrite find_ref_find,
      (find_after_assign _ _ _ _ _ _ Hfind Hsaved Hkept), Hsame.
    split; [reflexivity|]. intros Hboreholes. cbn [option_map snd].
    now rewrite (mergeProject_exact _ _ _ Hboreholes
                   (found_exact _ _ _ _ Hfind)). }
  destruct (useProjects.isCurrent s projectId).
  - rewrite Hload'. do 2 eexists. split; [reflexivity|].
    cbn [useProjects.projects useProjects.currentProject
         useProjects.selectedBorehole useProjects.error s1].
    rewrite (stored_ext _ _ Hls2).
    split; [reflexivity|]. split; [congruence|]. split; [reflexivity|].
    split; [intros _; split; reflexivity|].
    split; [discriminate | exact Hmerged].
  - do 2 eexists. split; [reflexivity|].
    cbn [useProjects.projects useProjects.currentProject
         useProjects.selectedBorehole useProjects.error s1].
    split; [reflexivity|]. split; [exact Hls2|]. split; [reflexivity|].
    split; [discriminate|].
    split; [intros _; split; reflexivity | exact Hmerged].
Qed.

Lemma facade_updateProject_witness :
  exists s' w',
    useProjects.updateProject "p1" renameOnly (fst selecting) (snd selecting)
      = (s', w') /\
    option_map Project.name (useProjects.currentProject s') = Some "Renamed" /\
    map Project.name (useProjects.projects s') = ["Renamed"] /\
    useProjects.selectedBorehole s' = None.
Proof.
  destruct (facade_updateProject "p1" renameOnly (fst selecting) (snd selecting)
              _ _ eq_refl)
    as (s' & w' & Hrun & Hlist & _ & _ & Hcurrent & _).
  destruct (Hcurrent eq_refl) as (Hfound & Hsel).
  exists s', w'. split; [exact Hrun|].
  split; [rewrite Hfound; reflexivity|].
  split; [rewrite Hlist; reflexivity | exact Hsel].
Defined.

(** ** What the pages show and export *)

Lemma hasChar_countChar (c : ascii) (value : string) :
  hasChar c value = false <-> countChar c value = 0.
Proof.
  induction value as [|c' rest IH]; cbn [hasChar countChar]; [tauto|].
  destruct (Ascii.eqb c' c); cbn [orb]; [split; [discriminate | lia]|].
  exact IH.
Qed.

Lemma countChar_append (c : ascii) (a b : string) :
  countChar c (a ++ b) = countChar c a + countChar c b.
Proof.
  induction a as [|c' rest IH]; cbn [String.append countChar]; [reflexivity|].
  rewrite IH. lia.
Qed.

Lemma countChar_doubleQuotes (value : string) :
  countChar dquote (doubleQuotes value) = 2 * countChar dquote value.
Proof.
  induction value as [|c rest IH]; cbn [doubleQuotes countChar]; [reflexivity|].
  destruct (Ascii.eqb c dquote) eqn:Hc; cbn [countChar].
  - rewrite Ascii.eqb_refl, IH. lia.
  - rewrite Hc, IH. lia.
Qed.

Lemma countChar_doubleQuotes_other (c : ascii) (value : string) :
  c <> dquote ->
  countChar c (doubleQuotes value) = countChar c value.
Proof.
  intros Hne.
  assert (Hdq : Ascii.eqb dquote c = false)
    by (apply Ascii.eqb_neq; congruence).
  induction value as [|c' rest IH]; cbn [doubleQuotes countChar]; [reflexivity|].
  destruct (Ascii.eqb c' dquote) eqn:Hc; cbn [countChar].
  - apply Ascii.eqb_eq in Hc. subst c'. rewrite Hdq, IH. reflexivity.
  - now rewrite IH.
Qed.

(** X18: [escapeCSV] leaves a value without comma, double quote and line
    feed as it is. Any other value is written between two double quotes with
    each of its double quotes doubled and its other characters kept; so the
    field written always holds an even number of double quotes, and it holds
    a comma or a line feed only between the two outer quotes. *)
Theorem escapeCSV_quotes_balance (value : string) :
  (hasChar ","%char value = false -> hasChar dquote value = false ->
   hasChar newline value = false -> escapeCSV value = value) /\
  (hasChar ","%char value = true \/ hasChar dquote value = true \/
   hasChar newline value = true ->
   exists inner,
     escapeCSV value = String dquote (inner ++ String dquote EmptyString) /\
     countChar dquote inner = 2 * countChar dquote value /\
     (forall c, c <> dquote -> countChar c inner = countChar c value)) /\
  Nat.even (countChar dquote (escapeCSV value)) = true.
Proof.
  unfold escapeCSV. split; [| split].
  - now intros -> -> ->.
  - intros Hsome. exists (doubleQuotes value).
    split; [| split].
    + destruct Hsome as [-> | [-> | ->]]; cbn [orb];
        rewrite ?orb_true_r; reflexivity.
    + apply countChar_doubleQuotes.
    + intros c Hc. now apply countChar_doubleQuotes_other.
  - destruct (hasChar ","%char value || hasChar dquote value ||
              hasChar newline value) eqn:Hany.
    + cbn [countChar]. rewrite Ascii.eqb_refl, countChar_append.
      cbn [countChar]. rewrite Ascii.eqb_refl, countChar_doubleQuotes.
      replace (1 + (2 * countChar dquote value + (1 + 0)))
        with (2 * (1 + countChar dquote value)) by lia.
      rewrite Nat.even_mul. reflexivity.
    + apply orb_false_iff in Hany. destruct Hany as (Hany & _).
      apply orb_false_iff in Hany. destruct Hany as (_ & Hquote).
      apply hasChar_countChar in Hquote. now rewrite Hquote.
Qed.

Lemma doubleQuotes_inj (a b : string) :
  doubleQuotes a = doubleQuotes b -> a = b.
Proof.
  revert b. induction a as [|c rest IH]; intros [|c' rest'];
    cbn [doubleQuotes]; try reflexivity.
  - destruct (Ascii.eqb c' dquote); discriminate.
  - destruct (Ascii.eqb c dquote); discriminate.
  - destruct (Ascii.eqb_spec c dquote) as [-> | Hc];
      destruct (Ascii.eqb_spec c' dquote) as [-> | Hc'].
    + intros [= Heq]. f_equal. now apply IH.
    + intros [= Heq _]. congruence.
    + intros [= Heq _]. congruence.
    + intros [= -> Heq]. f_equal. now apply IH.
Qed.

Lemma append_char_inj (a b : string) (c : ascii) :
  a ++ String c EmptyString = b ++ String c EmptyString -> a = b.
Proof.
  revert b. induction a as [|x rest IH]; intros [|y rest'];
    cbn [String.append]; try reflexivity.
  - intros [= _ Heq]. destruct rest'; discriminate.
  - intros [= _ Heq]. destruct rest; discriminate.
  - intros [= -> Heq]. f_equal. now apply IH.
Qed.

(** X19: [escapeCSV] writes different values differently: the value can be
    told from the field written. *)
Theorem escapeCSV_injective (a b : string) :
  escapeCSV a = escapeCSV b -> a = b.
Proof.
  unfold escapeCSV.
  destruct (hasChar ","%char a || hasChar dquote a || hasChar newline a)
    eqn:Ha;
    destruct (hasChar ","%char b || hasChar dquote b || hasChar newline b)
      eqn:Hb.
  - intros [= Heq]. apply append_char_inj in Heq. now apply doubleQuotes_inj.
  - intros <-. cbn [hasChar] in Hb. rewrite Ascii.eqb_refl in Hb.
    cbn [orb] in Hb. rewrite orb_true_r in Hb. discriminate.
  - intros ->. cbn [hasChar] in Ha. rewrite Ascii.eqb_refl in Ha.
    cbn [orb] in Ha. rewrite orb_true_r in Ha. discriminate.
  - trivial.
Qed.

Lemma escapeCSV_injective_witness :
  escapeCSV "Sandy, wet" = String dquote ("Sandy, wet" ++ String dquote EmptyString) /\
  "Sandy, wet" = "Sandy, wet".
Proof.
  split; [reflexivity|].
  apply (escapeCSV_injective "Sandy, wet" "Sandy, wet"). reflexivity.
Defined.

(** X20: the head of the export's file name has as many characters as the
    project's name, every one of them a letter, a digit or an underscore; a
    name made of letters and digits is kept, and sanitizing twice changes
    nothing more. *)
Theorem sanitizedName_is_safe (name : string) :
  String.length (sanitizedName name) = String.length name /\
  (forall c, hasChar c (sanitizedName name) = true ->
             isAlphanumeric c = true \/ c = "_"%char) /\
  ((forall c, hasChar c name = true -> isAlphanumeric c = true) ->
   sanitizedName name = name) /\
  sanitizedName (sanitizedName name) = sanitizedName name.
Proof.
  unfold sanitizedName.
  induction name as [|x rest (Hlen & Hsafe & Hkeep & Htwice)];
    cbn [mapChars String.length hasChar].
  - repeat split; try reflexivity. discriminate.
  - split; [now rewrite Hlen|]. split; [| split].
    + intros c Hc. apply orb_true_iff in Hc. destruct Hc as [Hhere | Hlater];
        [| now apply Hsafe].
      apply Ascii.eqb_eq in Hhere. subst c.
      destruct (isAlphanumeric x) eqn:Hx; [left; exact Hx | now right].
    + intros Hall.
      rewrite (Hall x) by (now rewrite Ascii.eqb_refl).
      f_equal. apply Hkeep. intros c Hc. apply Hall. rewrite Hc.
      apply orb_true_r.
    + rewrite Htwice. f_equal.
      destruct (isAlphanumeric x) eqn:Hx; [now rewrite Hx | reflexivity].
Qed.

Lemma keepChars_append (keep : ascii -> bool) (a b : string) :
  keepChars keep (a ++ b) = keepChars keep a ++ keepChars keep b.
Proof.
  induction a as [|c rest IH]; cbn [String.append keepChars]; [reflexivity|].
  destruct (keep c); cbn [String.append]; now rewrite IH.
Qed.

Lemma keepChars_digits (d : Decimal.uint) :
  keepChars isDigit (NilEmpty.string_of_uint d) = NilEmpty.string_of_uint d.
Proof.
  induction d; cbn [NilEmpty.string_of_uint keepChars]; try reflexivity;
    match goal with
    | |- (if isDigit ?c then _ else _) = _ =>
        change (isDigit c) with true; cbv iota
    end; now f_equal.
Qed.

Lemma keepChars_padStart (num : nat) :
  keepChars isDigit (padStart 2 "0"%char (String_of num)) =
  padStart 2 "0"%char (String_of num).
Proof.
  unfold padStart. rewrite keepChars_append. f_equal.
  - now destruct (String.length (String_of num)) as [|[|len]].
  - unfold String_of. apply keepChars_digits.
Qed.

Lemma padStart_twice (c : ascii) (value : string) :
  padStart 2 c (padStart 2 c value) = padStart 2 c value.
Proof.
  unfold padStart. destruct value as [|x [|y rest]]; reflexivity.
Qed.

(** X21: the marker of a borehole with a generated code shows the number of
    the code, on two digits at least: the code is [BH] followed by the
    marker's label. The marker of a code without any digit shows [00]. *)
Theorem markerLabel_of_generated_code :
  (forall num,
      markerLabel (bhCode num) = padStart 2 "0"%char (String_of num) /\
      bhCode num = "BH" ++ markerLabel (bhCode num)) /\
  (forall project,
      generateBoreholeCode project =
        "BH" ++ markerLabel (generateBoreholeCode project)) /\
  (forall code, keepChars isDigit code = "" -> markerLabel code = "00").
Proof.
  assert (Hlabel : forall num,
            markerLabel (bhCode num) = padStart 2 "0"%char (String_of num)).
  { intros num. unfold markerLabel, bhCode.
    cbn [String.append keepChars].
    change (isDigit "B") with false. change (isDigit "H") with false.
    cbv iota.
    rewrite keepChars_padStart. apply padStart_twice. }
  split; [| split].
  - intros num. split; [apply Hlabel|]. now rewrite Hlabel.
  - intros project. unfold generateBoreholeCode. now rewrite Hlabel.
  - intros code Hnone. unfold markerLabel. now rewrite Hnone.
Qed.

(** X22: markers are laid out by the position of the borehole in the
    sequence, five to a row: two boreholes at different positions never get
    the same place, and every marker lies in one of five columns. *)
Theorem markerPosition_injective (i j : nat) :
  (markerPosition i = markerPosition j -> i = j) /\
  fst (markerPosition i) <= 612 /\
  snd (markerPosition i) = 100 + (i / 5) * 138.
Proof.
  unfold markerPosition. cbv zeta.
  pose proof (Nat.div_mod_eq i 5) as Hi.
  pose proof (Nat.div_mod_eq j 5) as Hj.
  assert (Hbound : i mod 5 < 5) by (apply Nat.mod_upper_bound; lia).
  generalize dependent (i mod 5). generalize dependent (i / 5).
  generalize dependent (j mod 5). generalize dependent (j / 5).
  intros rowj colj Hj rowi coli Hi Hbound. cbn [fst snd].
  split; [| split; [| reflexivity]].
  - intros [= Hcol Hrow]. lia.
  - lia.
Qed.

Lemma markerPosition_injective_witness :
  markerPosition 7 = (346, 238) /\ 7 = 7.
Proof.
  split; [reflexivity|].
  apply (proj1 (markerPosition_injective 7 7)). reflexivity.
Defined.

Lemma or_string_same (code : string) :
  code <> "" -> or_string (Some code) code = code.
Proof.
  intros Hne. cbn [or_string]. now destruct (String.eqb_spec code "").
Qed.

(** X23: the code the drawer proposes for a new borehole is the code the
    Store would give by itself. On a storage that holds nothing, a text that
    does not parse, or the serialization of an array of projects, it is
    read without a write; it is never empty, it is [BH01] when the project
    is not stored, and [addBorehole] with the proposed code, made on the
    same storage, is the very computation [addBorehole] without a code
    is. *)
Theorem nextCode_is_the_default (w : World) (projectId : string)
    (data : BoreholeData.t) :
  exists code w',
    nextCode projectId w = (Returned code, w') /\
    localStorage w' = localStorage w /\
    code <> "" /\
    (forall project,
        find (storage.hasId projectId) (stored w) = Some project ->
        code = generateBoreholeCode project) /\
    ((forall p, In p (stored w) -> Project.id p <> projectId) ->
     code = "BH01") /\
    storage.addBorehole projectId (BoreholeData.withCode (Some code) data) w =
    storage.addBorehole projectId (BoreholeData.withCode None data) w.
Proof.
  destruct (getProjects_total w) as (w1 & Hread & Hls & _).
  unfold nextCode, storage.getProject. unfold bind at 1 2. rewrite Hread.
  unfold ret. do 2 eexists. split; [reflexivity|]. split; [exact Hls|].
  rewrite find_ref_find.
  destruct (find_ref (storage.hasId projectId) (stored w))
    as [[index project]|] eqn:Hfind; cbn [option_map snd].
  - split; [apply generateBoreholeCode_not_empty|].
    split; [now intros p [= <-]|]. split.
    + intros Hnone. rewrite (find_hasId _ _ Hnone) in Hfind. discriminate.
    + unfold storage.addBorehole, bind. rewrite Hread, Hfind.
      cbn [BoreholeData.withCode BoreholeData.code BoreholeData.name
           BoreholeData.latitude BoreholeData.longitude
           BoreholeData.groundLevel BoreholeData.totalDepth
           BoreholeData.status BoreholeData.notes].
      rewrite (or_string_same _ (generateBoreholeCode_not_empty project)).
      reflexivity.
  - split; [discriminate|]. split; [discriminate|]. split; [reflexivity|].
    unfold storage.addBorehole, bind. now rewrite Hread, Hfind.
Qed.

Lemma fromSet_fold (values seen : list string) :
  NoDup seen ->
  let result :=
    fold_left (fun seen v => if includes seen v then seen else (seen ++ [v])%list)
              values seen in
  NoDup result /\ (forall v, In v result <-> In v seen \/ In v values).
Proof.
  revert seen. induction values as [|x rest IH]; intros seen Hseen; cbn [fold_left].
  - split; [exact Hseen|]. intros v. cbn [In]. tauto.
  - destruct (includes seen x) eqn:Hx.
    + destruct (IH seen Hseen) as (Hdistinct & Hmembers).
      split; [exact Hdistinct|]. intros v. rewrite Hmembers. cbn [In].
      apply includes_In in Hx. split; [tauto|].
      intros [Hv | [<- | Hv]]; tauto.
    + assert (Hseen' : NoDup (seen ++ [x])).
      { apply NoDup_app; [exact Hseen | repeat constructor; intros [] |].
        intros v Hv [<- | []]. apply includes_not_In in Hx. contradiction. }
      destruct (IH (seen ++ [x])%list Hseen') as (Hdistinct & Hmembers).
      split; [exact Hdistinct|]. intros v. rewrite Hmembers, in_app_iff.
      cbn [In]. tauto.
Qed.

(** X24: the clients the projects page offers as filters are exactly the
    clients of the listed projects that are not empty, each of them once. *)
Theorem uniqueClients_distinct (projects : list Project.t) :
  NoDup (uniqueClients projects) /\
  (forall c, In c (uniqueClients projects) <->
             c <> "" /\ exists p, In p projects /\ Project.client p = Some c) /\
  ~ In "" (uniqueClients projects).
Proof.
  unfold uniqueClients, fromSet.
  destruct (fromSet_fold
              (map (fun c => or_else c "")
                   (filter truthy (map Project.client projects)))
              [] (NoDup_nil _)) as (Hdistinct & Hmembers).
  assert (Hin : forall c,
            In c (map (fun c => or_else c "")
                      (filter truthy (map Project.client projects))) <->
            c <> "" /\ exists p, In p projects /\ Project.client p = Some c).
  { intros c. rewrite in_map_iff. split.
    - intros (client & <- & Hclient). apply filter_In in Hclient.
      destruct Hclient as (Hclient & Htruthy). apply in_map_iff in Hclient.
      destruct Hclient as (p & <- & Hp).
      destruct (Project.client p) as [name|] eqn:Hname; [| discriminate].
      cbn [or_else truthy] in *. apply negb_true_iff in Htruthy.
      apply String.eqb_neq in Htruthy. split; [exact Htruthy|].
      exists p. now split.
    - intros (Hne & p & Hp & Hname). exists (Some c).
      split; [reflexivity|]. apply filter_In. split.
      + apply in_map_iff. exists p. now split.
      + cbn [truthy]. apply negb_true_iff. now apply String.eqb_neq. }
  split; [exact Hdistinct|]. split.
  - intros c. rewrite Hmembers, Hin. cbn [In]. tauto.
  - intros Hempty. apply Hmembers in Hempty. destruct Hempty as [[] | Hempty].
    apply Hin in Hempty. now destruct Hempty.
Qed.

(** ** Identifiers stay distinct *)

Lemma NoDup_map_filter {A B : Type} (f : A -> B) (pred : A -> bool)
    (array : list A) :
  NoDup (map f array) -> NoDup (map f (filter pred array)).
Proof.
  induction array as [|a rest IH]; cbn [map filter]; [trivial|].
  intros Hdistinct. inversion Hdistinct as [|x xs Hnotin Hrest]; subst.
  destruct (pred a); cbn [map]; [| now apply IH].
  constructor; [| now apply IH].
  intros Hin. apply Hnotin. apply in_map_iff in Hin.
  destruct Hin as (y & Hy & Hyin). apply filter_In in Hyin.
  apply in_map_iff. exists y. now split.
Qed.

(** X25: stored projects with distinct ids keep distinct ids. After
    [createProject] they do when the identifier drawn is not a stored
    project's id; [updateProject] with an argument that carries no [id]
    leaves the ids and their order as they are; [deleteProject] leaves the
    ids of the projects that remain. *)
Theorem project_ids_stay_distinct (w w' : World) :
  NoDup (map Project.id (stored w)) ->
  (forall data P,
      storage.createProject data w = (Returned P, w') ->
      (forall p, In p (stored w) -> Project.id p <> uuids w 0) ->
      NoDup (map Project.id (stored w'))) /\
  (forall projectId updates result,
      storage.updateProject projectId updates w = (Returned result, w') ->
      ProjectUpdates.id updates = None ->
      map Project.id (stored w') = map Project.id (stored w)) /\
  (forall projectId removed,
      storage.deleteProject projectId w = (Returned removed, w') ->
      NoDup (map Project.id (stored w'))).
Proof.
  intros Hdistinct. split; [| split].
  - intros data P Hrun Hfresh.
    destruct (createProject_run w data) as (w1 & Hls & Hrun').
    rewrite Hrun in Hrun'. symmetry in Hrun'.
    destruct (save_then_ret_cases _ _ _ _ _ Hrun')
      as [(_ & _ & Hsaved) | (_ & Hthrown & _)]; [| discriminate].
    rewrite (stored_created _ _ _ eq_refl Hsaved).
    cbn [map storage.newProject Project.id].
    constructor; [| exact Hdistinct].
    intros Hin. apply in_map_iff in Hin. destruct Hin as (p & Hid & Hp).
    now apply (Hfresh p Hp).
  - intros projectId updates result Hrun Hid.
    destruct (updateProject_run w projectId updates)
      as (w1 & w2 & Hls & _ & Hrun').
    rewrite Hrun in Hrun'.
    destruct (find_ref (storage.hasId projectId) (stored w))
      as [[index found]|] eqn:Hfind.
    + symmetry in Hrun'.
      destruct (save_then_ret_cases _ _ _ _ _ Hrun')
        as [(_ & _ & Hsaved) | (_ & Hthrown & _)]; [| discriminate].
      rewrite (stored_assigned _ _ _ _ Hsaved).
      destruct (find_ref_Some _ _ _ _ Hfind) as (Hnth & _ & _).
      apply (map_assign_same Project.id _ _ found); [exact Hnth|].
      unfold storage.mergeProject. cbn [roundTripProject Project.id].
      now rewrite Hid.
    + injection Hrun' as _ ->. now rewrite (stored_ext _ _ Hls).
  - intros projectId removed Hrun.
    destruct (deleteProject_run w projectId) as (w1 & Hls & _ & _ & Hrun').
    rewrite Hrun in Hrun'. cbv zeta in Hrun'.
    destruct (Nat.eqb _ _).
    + injection Hrun' as _ ->. now rewrite (stored_ext _ _ Hls).
    + symmetry in Hrun'.
      destruct (save_then_ret_cases _ _ _ _ _ Hrun')
        as [(_ & _ & Hsaved) | (_ & Hthrown & _)]; [| discriminate].
      rewrite (stored_filtered _ _ _ Hsaved). now apply NoDup_map_filter.
Qed.

Lemma project_ids_stay_distinct_witness :
  map Project.id (stored twoProjects) = ["p1"; "p2"] /\
  NoDup (map Project.id
           (stored (snd (storage.createProject dataX twoProjects)))).
Proof.
  split; [reflexivity|].
  assert (Hdistinct : NoDup (map Project.id (stored twoProjects))).
  { repeat constructor; cbn; intuition discriminate. }
  destruct (project_ids_stay_distinct twoProjects
              (snd (storage.createProject dataX twoProjects)) Hdistinct)
    as (Hcreate & _).
  apply (Hcreate dataX (storage.newProject "uuid-0" now1 dataX)).
  - reflexivity.
  - cbn. intros p [<- | [<- | []]]; discriminate.
Defined.

(** X26: the boreholes of a project keep distinct ids. [addBorehole] keeps
    them distinct when the identifier drawn is not the id of a borehole of
    the project, and [deleteBorehole] keeps the ids of the boreholes that
    remain; both on a storage that accepts writes. *)
Theorem borehole_ids_stay_distinct (w : World) (projectId : string)
    (project : Project.t) :
  find (storage.hasId projectId) (stored w) = Some project ->
  access (localStorage w) = Available ->
  NoDup (map Borehole.id (Project.boreholes project)) ->
  (forall data,
      (forall b, In b (Project.boreholes project) -> Borehole.id b <> uuids w 0) ->
      exists borehole project' w',
        storage.addBorehole projectId data w = (Returned (Some borehole), w') /\
        find (storage.hasId projectId) (stored w') = Some project' /\
        NoDup (map Borehole.id (Project.boreholes project'))) /\
  (forall boreholeId b,
      In b (Project.boreholes project) -> Borehole.id b = boreholeId ->
      exists project' w',
        storage.deleteBorehole projectId boreholeId w = (Returned true, w') /\
        find (storage.hasId projectId) (stored w') = Some project' /\
        NoDup (map Borehole.id (Project.boreholes project')) /\
        length (Project.boreholes project') + 1 =
          length (Project.boreholes project)).
Proof.
  intros Hfound Hacc Hdistinct.
  destruct (find_ref_of_find _ _ _ Hfound) as (index & Hfind).
  split.
  - intros data Hfresh.
    destruct (addBorehole_found w projectId data index project Hfind Hacc)
      as (w' & Hrun & Hls).
    eassert (Hfind' : find_ref (storage.hasId projectId) (stored w') =
                      Some (index, _)).
    { eapply (find_after_assign w' projectId index project);
        [exact Hfind | exact Hls | reflexivity]. }
    rewrite (boreholes_pushed _ _ _ _ _ _ Hfind) in Hfind'.
    do 2 eexists. exists w'. split; [exact Hrun|].
    split; [rewrite find_ref_find, Hfind'; reflexivity|].
    cbn [snd storage.touch Project.boreholes]. rewrite map_app.
    cbn [map roundTripBorehole storage.newBorehole Borehole.id].
    apply NoDup_app; [exact Hdistinct | repeat constructor; intros [] |].
    intros i Hi [<- | []]. apply in_map_iff in Hi.
    destruct Hi as (b & Hid & Hb). now apply (Hfresh b Hb).
  - intros boreholeId b Hb Hid.
    destruct (deleteBorehole_available w projectId boreholeId index project b
                Hfind Hb Hid Hacc) as (now & w' & Hrun & Hls).
    eassert (Hfind' : find_ref (storage.hasId projectId) (stored w') =
                      Some (index, _)).
    { eapply (find_after_assign w' projectId index project);
        [exact Hfind | exact Hls | reflexivity]. }
    rewrite (boreholes_filtered _ _ _ _ _ _ Hfind) in Hfind'.
    eexists. exists w'. split; [exact Hrun|].
    split; [rewrite find_ref_find, Hfind'; reflexivity|].
    cbn [snd storage.touch Project.boreholes].
    split; [now apply NoDup_map_filter|].
    clear Hfind' Hls Hrun.
    induction (Project.boreholes project) as [|x rest IH];
      [destruct Hb|].
    inversion Hdistinct as [|i ids Hnotin Hrest]; subst.
    cbn [filter length].
    destruct (storage.otherId (Borehole.id b) x) eqn:Hx; cbn [length].
    + destruct Hb as [-> | Hb].
      * apply otherId_true in Hx. contradiction.
      * specialize (IH Hrest Hb). lia.
    + rewrite filter_all; [lia|]. intros y Hy. apply otherId_true.
      apply negb_false_iff in Hx. apply boreholeHasId_true in Hx.
      intros Hsame. apply Hnotin. apply in_map_iff. exists y.
      split; [congruence | exact Hy].
Qed.

Lemma borehole_ids_stay_distinct_witness :
  exists project' w',
    storage.deleteBorehole "p1" "id-BH02" acmeWorld = (Returned true, w') /\
    find (storage.hasId "p1") (stored w') = Some project' /\
    NoDup (map Borehole.id (Project.boreholes project')) /\
    length (Project.boreholes project') + 1 = 2.
Proof.
  assert (Hdistinct : NoDup (map Borehole.id (Project.boreholes acme))).
  { repeat constructor; cbn; intuition discriminate. }
  destruct (borehole_ids_stay_distinct acmeWorld "p1" acme eq_refl eq_refl
              Hdistinct) as (_ & Hdelete).
  apply (Hdelete "id-BH02" (boreholeWithCode "BH02")).
  - right. now left.
  - reflexivity.
Defined.

(** X27: after the Facade's [deleteBorehole] on a current project, the Store
    having returned, nothing is selected, whichever borehole was selected
    before; the current project is the reloaded one, and when the Store
    removed a borehole, no borehole of the current project has the id. *)
Theorem facade_deleteBorehole_selection (boreholeId : string)
    (s : useProjects.State) (w w1 : World) (current : Project.t)
    (removed : bool) :
  useProjects.currentProject s = Some current ->
  storage.deleteBorehole (Project.id current) boreholeId w =
    (Returned removed, w1) ->
  exists s' w',
    useProjects.deleteBorehole boreholeId s w = (s', w') /\
    useProjects.selectedBorehole s' = None /\
    useProjects.currentProject s' =
      find (storage.hasId (Project.id current)) (stored w1) /\
    useProjects.error s' = None /\
    (removed = true ->
     forall reloaded b,
       useProjects.currentProject s' = Some reloaded ->
       In b (Project.boreholes reloaded) -> Borehole.id b <> boreholeId).
Proof.
  intros Hcurrent Hrun.
  destruct (loadProject_run (Project.id current) s w1) as (w2 & Hload & _).
  unfold useProjects.deleteBorehole. rewrite Hcurrent, Hrun, Hload.
  assert (Hgone : removed = true ->
            forall reloaded b,
              find (storage.hasId (Project.id current)) (stored w1) =
                Some reloaded ->
              In b (Project.boreholes reloaded) -> Borehole.id b <> boreholeId).
  { intros ->. destruct (deleteBorehole_run' w (Project.id current) boreholeId)
      as (wa & wb & _ & _ & Hrun').
    rewrite Hrun in Hrun'.
    destruct (find_ref (storage.hasId (Project.id current)) (stored w))
      as [[index project]|] eqn:Hfind; [| discriminate].
    cbv zeta in Hrun'. destruct (Nat.eqb _ _); [discriminate|].
    symmetry in Hrun'.
    destruct (save_then_ret_cases _ _ _ _ _ Hrun')
      as [(_ & _ & Hsaved) | (_ & Hthrown & _)]; [| discriminate].
    eassert (Hfind1 : find_ref (storage.hasId (Project.id current)) (stored w1)
                      = Some (index, _)).
    { eapply (find_after_assign w1 (Project.id current) index project);
        [exact Hfind | exact Hsaved | reflexivity]. }
    rewrite (boreholes_filtered _ _ _ _ _ _ Hfind) in Hfind1.
    intros reloaded b Hreloaded Hb.
    rewrite find_ref_find, Hfind1 in Hreloaded. injection Hreloaded as <-.
    cbn [storage.touch Project.boreholes] in Hb. apply filter_In in Hb.
    now apply otherId_true. }
  destruct (useProjects.isSelected s boreholeId);
    do 2 eexists; (split; [reflexivity|]);
    cbn [useProjects.setSelectedBorehole useProjects.selectedBorehole
         useProjects.currentProject useProjects.error];
    repeat split; assumption.
Qed.

Lemma facade_deleteBorehole_selection_witness :
  exists s' w',
    useProjects.deleteBorehole "id-BH02" (fst selecting) (snd selecting)
      = (s', w') /\
    useProjects.selectedBorehole (fst selecting) = Some bh01 /\
    useProjects.selectedBorehole s' = None.
Proof.
  destruct (facade_deleteBorehole_selection "id-BH02" (fst selecting)
              (snd selecting) _ acme true eq_refl eq_refl)
    as (s' & w' & Hrun & Hsel & _).
  exists s', w'. split; [exact Hrun|]. split; [reflexivity | exact Hsel].
Defined.

(** X28: the code [generateBoreholeCode] returns depends on nothing but
    which of the codes BH01, BH02, ... are taken: two projects that have the
    same ones of these get the same code, whatever other codes, names or
    order their boreholes have. A code written otherwise, such as [BH1] for
    the first, does not take the number. *)
Theorem generateBoreholeCode_counts_only_BH_codes :
  (forall p q : Project.t,
      (forall k, In (bhCode k) (map Borehole.code (Project.boreholes p)) <->
                 In (bhCode k) (map Borehole.code (Project.boreholes q))) ->
      generateBoreholeCode p = generateBoreholeCode q) /\
  generateBoreholeCode (projectWithCodes ["BH1"; "bh01"; "BH02"]) = "BH01".
Proof.
  split; [| reflexivity].
  intros p q Hsame.
  destruct (generateBoreholeCode_spec q) as (num & Hrange & -> & Hfree & Hbelow).
  apply generateBoreholeCode_unique; [lia | |].
  - now rewrite Hsame.
  - intros k Hk. rewrite Hsame. now apply Hbelow.
Qed.
